(** * schoolbadge: the badge models of [mome_rath/models.py]

    A shallow embedding of the model layer of the badge application:
    the award authorisation rules of [Badge], the creation permission of
    [BadgeManager], the geometry of [scale_image], the path builder
    [mk_upload_to] and the slug rule of [Badge.save].

    The relational store is an explicit value threaded through every
    operation; Python exceptions are the [Raise] results of [outcome]. *)

From Stdlib Require Import ZArith List String Ascii Bool Lia SpecFloat.
Import ListNotations.

Local Open Scope string_scope.
Local Open Scope Z_scope.

(** ** Exceptions and results *)

(** The exceptions the modelled code raises or lets through. *)
Inductive exn : Type :=
| BadgeAwardNotAllowedException
| BadgeAlreadyAwardedException
| DoesNotExist
| MultipleObjectsReturned
| IntegrityError
| ZeroDivisionError
| OverflowError
| ValueError
| IndexError.

Inductive outcome (A : Type) : Type :=
| Return (a : A)
| Raise (e : exn).
Arguments Return {A} a.
Arguments Raise {A} e.

Definition bind {A B : Type} (m : outcome A) (k : A -> outcome B) : outcome B :=
  match m with
  | Return a => k a
  | Raise e => Raise e
  end.

Notation "'do' x <- m ; k" := (bind m (fun x => k))
  (at level 10, x name, m at level 100, k at level 200).

(** ** Users *)

(** A row of the user table ([django.contrib.auth.models.User]). *)
Record User : Type := mkUser {
  user_pk : Z;
  username : string;
  is_superuser : bool
}.

(** What a request carries as its user: Django's [AnonymousUser] or a
    stored [User].  An absent actor ([None] in Python) is [None] of
    [option Actor]. *)
Inductive Actor : Type :=
| AnonymousUser
| Authenticated (u : User).

Definition is_anonymous (a : Actor) : bool :=
  match a with
  | AnonymousUser => true
  | Authenticated _ => false
  end.

(** ** Badges and awards *)

(** [awarding_prerequisite] is the related object the foreign key
    resolves to, [None] when the column is null. *)
#[warnings="-register-all"]
Inductive Badge : Type := mkBadge {
  badge_pk : Z;
  title : string;
  slug : string;
  awarding_prerequisite : option Badge
}.

Record Award : Type := mkAward {
  award_pk : Z;
  description : string;
  award_badge : Z;             (* badge_id *)
  award_image : option string;
  award_user : Z;              (* user_id, the awardee *)
  award_creator : option Z;    (* creator_id, the awarder *)
  created : Z;
  modified : Z
}.

(** The tables the models read and write, with the sequence the store
    draws the next award key from. *)
Record Store : Type := mkStore {
  badge_table : list Badge;
  award_table : list Award;
  award_seq : Z
}.

(** ** Query sets *)

(** [Award.objects.filter(user=user, badge=badge)]: both foreign keys are
    compared by primary key. *)
Definition award_matches (user : User) (badge : Badge) (a : Award) : bool :=
  (award_user a =? user_pk user) && (award_badge a =? badge_pk badge).

Definition Award_objects_filter (db : Store) (user : User) (badge : Badge) : list Award :=
  filter (award_matches user badge) (award_table db).

(** [QuerySet.get]: the single matching row, or one of the two lookup
    exceptions. *)
Definition queryset_get {A : Type} (rows : list A) : outcome A :=
  match rows with
  | [] => Raise DoesNotExist
  | [a] => Return a
  | _ :: _ :: _ => Raise MultipleObjectsReturned
  end.

Definition Award_objects_get (db : Store) (user : User) (badge : Badge) : outcome Award :=
  queryset_get (Award_objects_filter db user badge).

(** [Award.objects.create(user=, badge=, creator=, description=)] at clock
    reading [now]: the new row takes the next key of the sequence, has no
    image, and both timestamps are [now]. *)
Definition Award_objects_create (db : Store) (now : Z) (user : User) (badge : Badge)
    (creator : option User) (descr : string) : Award * Store :=
  let a := {| award_pk := award_seq db;
              description := descr;
              award_badge := badge_pk badge;
              award_image := None;
              award_user := user_pk user;
              award_creator := option_map user_pk creator;
              created := now;
              modified := now |} in
  (a, {| badge_table := badge_table db;
         award_table := (award_table db ++ [a])%list;
         award_seq := award_seq db + 1 |}).

Definition Badge_objects_get_slug (db : Store) (s : string) : outcome Badge :=
  queryset_get (filter (fun b => String.eqb (slug b) s) (badge_table db)).

(** ** Badge methods *)

(** [Badge.is_awarded_to]. *)
Definition is_awarded_to (db : Store) (self : Badge) (user : User) : bool :=
  0 <? Z.of_nat (List.length (Award_objects_filter db user self)).

(** [Badge.allows_award_to]; the first two cases are
    [not user or user.is_anonymous()]. *)
Definition allows_award_to (db : Store) (self : Badge) (user : option Actor) : bool :=
  match user with
  | None => false
  | Some AnonymousUser => false
  | Some (Authenticated u) =>
      if is_superuser u then true
      else
        match awarding_prerequisite self with
        | Some prerequisite =>
            if is_awarded_to db prerequisite u then true else false
        | None => false
        end
  end.

(** The stored user behind an actor, as [creator=awarder] hands it to the
    award row. *)
Definition actor_user (a : option Actor) : option User :=
  match a with
  | Some (Authenticated u) => Some u
  | _ => None
  end.

(** [Badge.award_to], run against store [db] at clock reading [now];
    returns the result with the store it leaves behind. *)
Definition award_to (db : Store) (now : Z) (self : Badge) (awardee : User)
    (awarder : option Actor) (descr : string) (raise_already_awarded : bool)
    : outcome Award * Store :=
  if negb (allows_award_to db self awarder) then
    (Raise BadgeAwardNotAllowedException, db)
  else if is_awarded_to db self awardee then
    if raise_already_awarded then (Raise BadgeAlreadyAwardedException, db)
    else (Award_objects_get db awardee self, db)
  else
    let (a, db') := Award_objects_create db now awardee self (actor_user awarder) descr in
    (Return a, db').

(** [BadgeManager.allows_add_by]: only [Badge.DoesNotExist] is caught. *)
Definition allows_add_by (db : Store) (user : Actor) : outcome bool :=
  match user with
  | AnonymousUser => Return false
  | Authenticated u =>
      match Badge_objects_get_slug db "creator" with
      | Return creator_badge => Return (is_awarded_to db creator_badge u)
      | Raise DoesNotExist => Return false
      | Raise e => Raise e
      end
  end.

(** ** Python floats *)

(** Python's [float] is IEEE 754 binary64; the operations below are the
    round-to-nearest-even operations of [SpecFloat] at that format, with
    the exceptions Python raises around them. *)
Module PyFloat.

Definition prec : Z := 53.
Definition emax : Z := 1024.

Definition float : Type := spec_float.

(** [float(n)] for an integer [n]. *)
Definition of_int (n : Z) : outcome float :=
  match binary_normalize prec emax n 0 false with
  | S754_infinity _ => Raise OverflowError
  | f => Return f
  end.

Definition is_zero (x : float) : bool :=
  match x with
  | S754_zero _ => true
  | _ => false
  end.

(** [x / y] on floats. *)
Definition truediv (x y : float) : outcome float :=
  if is_zero y then Raise ZeroDivisionError
  else Return (SFdiv prec emax x y).

Definition mul (x y : float) : float := SFmul prec emax x y.
Definition sub (x y : float) : float := SFsub prec emax x y.
Definition lt (x y : float) : bool := SFltb x y.

(** [int(x)]: truncation towards zero. *)
Definition to_int (x : float) : outcome Z :=
  match x with
  | S754_zero _ => Return 0
  | S754_finite s m e =>
      Return (cond_Zopp s (if 0 <=? e then Z.pos m * 2 ^ e
                           else Z.pos m / 2 ^ (- e)))
  | S754_infinity _ => Raise OverflowError
  | S754_nan => Raise ValueError
  end.

End PyFloat.

(** ** Image scaling *)

(** What [Image.open] yields: the size and colour mode of the decoded
    picture. *)
Record Image : Type := mkImage {
  size : Z * Z;
  mode : string
}.

(** The picture [scale_image] encodes as PNG, described by the PIL calls
    that produce it: [crop(crop_box)], then [resize(resized_to)], then the
    colour mode it is saved in. *)
Record Scaled : Type := mkScaled {
  crop_box : Z * Z * Z * Z;   (* left, upper, right, lower *)
  resized_to : Z * Z;
  png_mode : string
}.

(** The crop rectangle of [scale_image] for a source of
    [src_width] x [src_height] and a target of [dst_width] x [dst_height]. *)
Definition scale_image_box (src_width src_height dst_width dst_height : Z)
    : outcome (Z * Z * Z * Z) :=
  do fsw <- PyFloat.of_int src_width;
  do fsh <- PyFloat.of_int src_height;
  do src_ratio <- PyFloat.truediv fsw fsh;
  do fdw <- PyFloat.of_int dst_width;
  do fdh <- PyFloat.of_int dst_height;
  do dst_ratio <- PyFloat.truediv fdw fdh;
  if PyFloat.lt dst_ratio src_ratio then
    let crop_height := src_height in
    do fch <- PyFloat.of_int crop_height;
    let crop_width := PyFloat.mul fch dst_ratio in
    do fsw' <- PyFloat.of_int src_width;
    do two <- PyFloat.of_int 2;
    do half <- PyFloat.truediv (PyFloat.sub fsw' crop_width) two;
    do x_offset <- PyFloat.to_int half;
    let y_offset := 0 in
    do icw <- PyFloat.to_int crop_width;
    Return (x_offset, y_offset, x_offset + icw, y_offset + crop_height)
  else
    let crop_width := src_width in
    do fcw <- PyFloat.of_int crop_width;
    do crop_height <- PyFloat.truediv fcw dst_ratio;
    let x_offset := 0 in
    do fsh' <- PyFloat.of_int src_height;
    do two <- PyFloat.of_int 2;
    do half <- PyFloat.truediv (PyFloat.sub fsh' crop_height) two;
    do y_offset <- PyFloat.to_int half;
    do ich <- PyFloat.to_int crop_height;
    Return (x_offset, y_offset, x_offset + crop_width, y_offset + ich).

(** [scale_image]: [img_upload] is what [Image.open] makes of the upload,
    [None] when it raises [IOError]. *)
Definition scale_image (img_upload : option Image) (img_max_size : Z * Z)
    : outcome (option Scaled) :=
  match img_upload with
  | None => Return None
  | Some img =>
      let (src_width, src_height) := size img in
      let (dst_width, dst_height) := img_max_size in
      do box <- scale_image_box src_width src_height dst_width dst_height;
      let m := mode img in
      let m' := if String.eqb m "RGB" || String.eqb m "RGBA" then m else "RGB" in
      Return (Some {| crop_box := box;
                      resized_to := (dst_width, dst_height);
                      png_mode := m' |})
  end.

Definition IMG_MAX_SIZE : Z * Z := (256, 256).

(** ** MD5 *)

(** [hashlib.md5(data).hexdigest()] (RFC 1321) over 32-bit words held in
    [Z], with the wrap-around written out. *)
Module MD5.

Definition w32 (x : Z) : Z := x mod 2 ^ 32.

Definition add32 (x y : Z) : Z := w32 (x + y).

Definition not32 (x : Z) : Z := 2 ^ 32 - 1 - x.

Definition rotl32 (x n : Z) : Z :=
  w32 (Z.lor (Z.shiftl x n) (Z.shiftr x (32 - n))).

Definition shifts : list Z :=
  [7; 12; 17; 22; 7; 12; 17; 22; 7; 12; 17; 22; 7; 12; 17; 22;
   5; 9; 14; 20; 5; 9; 14; 20; 5; 9; 14; 20; 5; 9; 14; 20;
   4; 11; 16; 23; 4; 11; 16; 23; 4; 11; 16; 23; 4; 11; 16; 23;
   6; 10; 15; 21; 6; 10; 15; 21; 6; 10; 15; 21; 6; 10; 15; 21].

Definition sines : list Z :=
  [0xd76aa478; 0xe8c7b756; 0x242070db; 0xc1bdceee;
   0xf57c0faf; 0x4787c62a; 0xa8304613; 0xfd469501;
   0x698098d8; 0x8b44f7af; 0xffff5bb1; 0x895cd7be;
   0x6b901122; 0xfd987193; 0xa679438e; 0x49b40821;
   0xf61e2562; 0xc040b340; 0x265e5a51; 0xe9b6c7aa;
   0xd62f105d; 0x02441453; 0xd8a1e681; 0xe7d3fbc8;
   0x21e1cde6; 0xc33707d6; 0xf4d50d87; 0x455a14ed;
   0xa9e3e905; 0xfcefa3f8; 0x676f02d9; 0x8d2a4c8a;
   0xfffa3942; 0x8771f681; 0x6d9d6122; 0xfde5380c;
   0xa4beea44; 0x4bdecfa9; 0xf6bb4b60; 0xbebfbc70;
   0x289b7ec6; 0xeaa127fa; 0xd4ef3085; 0x04881d05;
   0xd9d4d039; 0xe6db99e5; 0x1fa27cf8; 0xc4ac5665;
   0xf4292244; 0x432aff97; 0xab9423a7; 0xfc93a039;
   0x655b59c3; 0x8f0ccc92; 0xffeff47d; 0x85845dd1;
   0x6fa87e4f; 0xfe2ce6e0; 0xa3014314; 0x4e0811a1;
   0xf7537e82; 0xbd3af235; 0x2ad7d2bb; 0xeb86d391].

(** The four chaining words. *)
Definition state : Type := (Z * Z * Z * Z)%type.

Definition init : state := (0x67452301, 0xefcdab89, 0x98badcfe, 0x10325476).

(** Little-endian bytes of a word, and back. *)
Definition le_bytes (n : nat) (x : Z) : list Z :=
  map (fun i => Z.shiftr x (8 * Z.of_nat i) mod 256) (seq 0 n).

Fixpoint le_word (bytes : list Z) : Z :=
  match bytes with
  | [] => 0
  | b :: rest => b + 256 * le_word rest
  end.

(** The message padded to a multiple of 64 bytes. *)
Definition pad (msg : list Z) : list Z :=
  let len := Z.of_nat (List.length msg) in
  let zeros := Z.to_nat ((55 - len) mod 64) in
  msg ++ [128] ++ repeat 0 zeros ++ le_bytes 8 ((8 * len) mod 2 ^ 64).

(** The sixteen words of a 64-byte block. *)
Definition block_words (block : list Z) : list Z :=
  map (fun i => le_word (firstn 4 (skipn (4 * i) block))) (seq 0 16).

Definition round (M : list Z) (st : state) (i : Z) : state :=
  let '(A, B, C, D) := st in
  let '(F, g) :=
    if i <? 16 then (Z.lor (Z.land B C) (Z.land (not32 B) D), i)
    else if i <? 32 then (Z.lor (Z.land D B) (Z.land (not32 D) C), (5 * i + 1) mod 16)
    else if i <? 48 then (Z.lxor (Z.lxor B C) D, (3 * i + 5) mod 16)
    else (Z.lxor C (Z.lor B (not32 D)), (7 * i) mod 16) in
  let F' := add32 (add32 (add32 F A) (nth (Z.to_nat i) sines 0))
                  (nth (Z.to_nat g) M 0) in
  (D, add32 B (rotl32 F' (nth (Z.to_nat i) shifts 0)), B, C).

Definition compress (st : state) (block : list Z) : state :=
  let M := block_words block in
  let '(A, B, C, D) := fold_left (round M) (map Z.of_nat (seq 0 64)) st in
  let '(a0, b0, c0, d0) := st in
  (add32 a0 A, add32 b0 B, add32 c0 C, add32 d0 D).

(** Fold [compress] over the 64-byte blocks of [data]; [n] bounds the
    number of blocks. *)
Fixpoint blocks (n : nat) (st : state) (data : list Z) : state :=
  match n, data with
  | _, [] => st
  | O, _ => st
  | S n', _ => blocks n' (compress st (firstn 64 data)) (skipn 64 data)
  end.

Definition digest (msg : list Z) : list Z :=
  let data := pad msg in
  let '(a, b, c, d) := blocks (List.length data) init data in
  le_bytes 4 a ++ le_bytes 4 b ++ le_bytes 4 c ++ le_bytes 4 d.

Definition hex_digit (x : Z) : ascii :=
  nth (Z.to_nat x)
      (list_ascii_of_string "0123456789abcdef") "0"%char.

Fixpoint hex (bytes : list Z) : string :=
  match bytes with
  | [] => EmptyString
  | b :: rest => String (hex_digit (b / 16)) (String (hex_digit (b mod 16)) (hex rest))
  end.

Definition hexdigest (msg : list Z) : string := hex (digest msg).

End MD5.

(** ** Strings and formatting *)

(** [s.encode('utf-8', 'ignore')] for text whose code points are below
    256, one [ascii] per code point. *)
Definition utf8_encode (s : string) : list Z :=
  flat_map (fun c => let n := Z.of_N (N_of_ascii c) in
                     if n <? 128 then [n] else [192 + n / 64; 128 + n mod 64])
           (list_ascii_of_string s).

Definition digit_char (d : Z) : ascii := ascii_of_N (48 + Z.to_N d).

(** Decimal digits of a non-negative number, most significant first;
    [fuel] bounds the number of digits (a number has no more decimal
    digits than binary ones). *)
Fixpoint digits (fuel : nat) (n : Z) (acc : string) : string :=
  match fuel with
  | O => acc
  | S fuel' =>
      let acc' := String (digit_char (n mod 10)) acc in
      if n <? 10 then acc' else digits fuel' (n / 10) acc'
  end.

(** ['%s' % n] and ['%d' % n] for an integer. *)
Definition str_of_int (n : Z) : string :=
  if n <? 0 then String "-"%char (digits (S (Z.to_nat (Z.log2 (- n)))) (- n) EmptyString)
  else digits (S (Z.to_nat (Z.log2 n))) n EmptyString.

(** ['%04d' % n]: zero-padded to a width of four, sign first. *)
Definition fmt_04d (n : Z) : string :=
  let body := str_of_int (Z.abs n) in
  let sign := if n <? 0 then "-" else "" in
  let width := (String.length sign + String.length body)%nat in
  sign ++ string_of_list_ascii (repeat "0"%char (4 - width)) ++ body.

(** The number a string of decimal digits denotes, read after the value
    [v] of the digits before it. *)
Fixpoint decimal_value (v : Z) (s : string) : Z :=
  match s with
  | EmptyString => v
  | String c rest => decimal_value (10 * v + (Z.of_N (N_of_ascii c) - 48)) rest
  end.

(** ** Upload paths *)

(** [random.randint(a, b)] returns an integer of the closed range
    [a..b]; [entropy] is what the generator draws from. *)
Definition randint (a b : Z) (entropy : Z) : Z :=
  a + entropy mod (b - a + 1).

(** [Badge.get_upload_meta]. *)
Definition get_upload_meta (self : Badge) : string * string :=
  ("badge", slug self).

(** [MK_UPLOAD_TMPL % dict(...)]: the template reads [base], [h1], [h2],
    [hash], [field_fn], [now], [rand] and [ext] of the dictionary. *)
Definition MK_UPLOAD_TMPL (base h1 h2 hash field_fn : string) (now rand : Z)
    (ext : string) : string :=
  base ++ "/" ++ h1 ++ "/" ++ h2 ++ "/" ++ hash ++ "_" ++ field_fn ++ "_"
       ++ str_of_int now ++ "_" ++ fmt_04d rand ++ "." ++ ext.

(** [slug_hash[i]] *)
Definition char_at (s : string) (i : nat) : outcome string :=
  match String.get i s with
  | Some c => Return (String c EmptyString)
  | None => Raise IndexError
  end.

(** [mk_upload_to(field_fn, ext)] with the default template, applied to an
    instance whose [get_upload_meta()] is [meta]; [now] is [int(time())]
    and [entropy] feeds [random.randint(0, 1000)]. *)
Definition mk_upload_to (field_fn ext : string) (meta : string * string)
    (now entropy : Z) : outcome string :=
  let (base, slug) := meta in
  let slug_hash := MD5.hexdigest (utf8_encode slug) in
  let rand := randint 0 1000 entropy in
  do h1 <- char_at slug_hash 0;
  do h2 <- char_at slug_hash 1;
  Return (MK_UPLOAD_TMPL base h1 h2 slug_hash field_fn now rand ext).

(** ** Slugs and [Badge.save] *)

Definition is_space (c : ascii) : bool :=
  let n := N_of_ascii c in
  ((9 <=? n) && (n <=? 13) || (n =? 32))%N.

Definition is_word (c : ascii) : bool :=
  let n := N_of_ascii c in
  ((48 <=? n) && (n <=? 57) || (65 <=? n) && (n <=? 90)
   || (97 <=? n) && (n <=? 122) || (n =? 95))%N.

Definition is_hyphen (c : ascii) : bool := (N_of_ascii c =? 45)%N.

Definition lower (c : ascii) : ascii :=
  let n := N_of_ascii c in
  if ((65 <=? n) && (n <=? 90))%N then ascii_of_N (n + 32) else c.

Fixpoint lstrip (l : list ascii) : list ascii :=
  match l with
  | c :: rest => if is_space c then lstrip rest else l
  | [] => []
  end.

Definition strip (l : list ascii) : list ascii :=
  rev (lstrip (rev (lstrip l))).

(** [re.sub('[-\s]+', '-', value)]: every maximal run of hyphens and
    white space becomes one hyphen; [in_run] tells that the previous
    character belonged to such a run. *)
Fixpoint hyphenate (in_run : bool) (l : list ascii) : list ascii :=
  match l with
  | [] => []
  | c :: rest =>
      if is_hyphen c || is_space c then
        if in_run then hyphenate true rest
        else "-"%char :: hyphenate true rest
      else c :: hyphenate false rest
  end.

Section Slugs.

(** [unicodedata.normalize('NFKD', value).encode('ascii', 'ignore')],
    the library step that leaves ASCII text of a title. *)
Variable to_ascii : string -> string.

(** [django.template.defaultfilters.slugify]. *)
Definition slugify (value : string) : string :=
  let value := list_ascii_of_string (to_ascii value) in
  let value := filter (fun c => is_word c || is_space c || is_hyphen c) value in
  let value := map lower (strip value) in
  string_of_list_ascii (hyphenate false value).

Definition set_slug (b : Badge) (s : string) : Badge :=
  {| badge_pk := badge_pk b;
     title := title b;
     slug := s;
     awarding_prerequisite := awarding_prerequisite b |}.

(** [models.Model.save] for a badge: the row with the badge's key is
    replaced, or the badge is added; [title] and [slug] are each
    [unique]. *)
Definition Model_save (db : Store) (b : Badge) : outcome unit * Store :=
  let same_key := fun r => badge_pk r =? badge_pk b in
  let clash := fun r => negb (same_key r)
                        && (String.eqb (title r) (title b)
                            || String.eqb (slug r) (slug b)) in
  if existsb clash (badge_table db) then (Raise IntegrityError, db)
  else
    let rows :=
      if existsb same_key (badge_table db)
      then map (fun r => if same_key r then b else r) (badge_table db)
      else (badge_table db ++ [b])%list in
    (Return tt, {| badge_table := rows;
                   award_table := award_table db;
                   award_seq := award_seq db |}).

(** [Badge.save]: the badge object as the call leaves it, with what the
    store answered. *)
Definition save (db : Store) (self : Badge) : Badge * (outcome unit * Store) :=
  let self' :=
    if String.eqb (slug self) "" then set_slug self (slugify (title self))
    else self in
  (self', Model_save db self').

End Slugs.

(** A stand-in for the library's normalisation on titles that are ASCII
    already: characters outside ASCII are left out. *)
Definition ascii_only (s : string) : string :=
  string_of_list_ascii
    (filter (fun c => (N_of_ascii c <? 128)%N) (list_ascii_of_string s)).

(** ** The crop of [scale_image] as the specification words it *)




(** Equality of crop boxes. *)
Definition box_eqb (p q : Z * Z * Z * Z) : bool :=
  let '(a, b, c, d) := p in
  let '(a', b', c', d') := q in
  (a =? a') && (b =? b') && (c =? c') && (d =? d').

(** ** Fixtures *)

Module Fixtures.

Definition admin : User := mkUser 1 "alice" true.
Definition teacher : User := mkUser 2 "bob" false.
Definition pupil : User := mkUser 3 "carol" false.

Definition creator_badge : Badge := mkBadge 1 "Creator" "creator" None.
Definition mentor : Badge := mkBadge 2 "Mentor" "mentor" None.
Definition team_player : Badge := mkBadge 3 "Team Player" "" (Some mentor).

Definition award_of (pk : Z) (b : Badge) (u : User) : Award :=
  mkAward pk "" (badge_pk b) None (user_pk u) (Some (user_pk admin)) 0 0.

Definition empty : Store := mkStore [] [] 1.

(** [teacher] holds [creator] and [mentor]. *)
Definition school : Store :=
  mkStore [creator_badge; mentor; team_player]
          [award_of 1 creator_badge teacher; award_of 2 mentor teacher] 3.

(** [pupil] holds [team_player] twice over. *)
Definition doubled : Store :=
  mkStore [creator_badge; mentor; team_player]
          [award_of 1 team_player pupil; award_of 2 mentor teacher;
           award_of 3 team_player pupil] 4.

End Fixtures.

(** ** Invariants of the award table *)

(** The (user, badge) pair an award row stands for. *)
Definition award_pair (a : Award) : Z * Z := (award_user a, award_badge a).

(** No (user, badge) pair has two award rows. *)
Definition awards_unique (db : Store) : Prop :=
  NoDup (map award_pair (award_table db)).

(** The primary keys of the award rows are distinct and below the
    sequence the next key is drawn from. *)
Definition award_keys_ok (db : Store) : Prop :=
  NoDup (map award_pk (award_table db))
  /\ Forall (fun a => award_pk a < award_seq db) (award_table db).

(** A call of [award_to], as data. *)
Record AwardCall : Type := mkAwardCall {
  call_now : Z;
  call_badge : Badge;
  call_awardee : User;
  call_awarder : option Actor;
  call_description : string;
  call_strict : bool
}.

Definition run_award_to (db : Store) (c : AwardCall) : outcome Award * Store :=
  award_to db (call_now c) (call_badge c) (call_awardee c) (call_awarder c)
           (call_description c) (call_strict c).

(** The store after a sequence of [award_to] calls, whatever each of
    them answered. *)
Definition award_all (db : Store) (calls : list AwardCall) : Store :=
  fold_left (fun st c => snd (run_award_to st c)) calls db.

(** ** Invariants of the badge table *)

(** [slug] is declared [unique]: no two badge rows share a slug. *)
Definition slugs_unique (db : Store) : Prop :=
  NoDup (map slug (badge_table db)).

(** Likewise for [title], and for the primary key. *)
Definition titles_unique (db : Store) : Prop :=
  NoDup (map title (badge_table db)).

Definition badge_keys_unique (db : Store) : Prop :=
  NoDup (map badge_pk (badge_table db)).

(** ** The shape of a slug *)

(** A lower-case letter, a digit, an underscore or a hyphen. *)
Definition is_slug_char (c : ascii) : bool :=
  let n := N_of_ascii c in
  ((48 <=? n) && (n <=? 57) || (97 <=? n) && (n <=? 122)
   || (n =? 95) || (n =? 45))%N.

(** Slug characters only, and no hyphen next to a hyphen; [after_hyphen]
    tells that the character before the list is a hyphen. *)
Fixpoint tidy (after_hyphen : bool) (l : list ascii) : bool :=
  match l with
  | [] => true
  | c :: rest =>
      is_slug_char c
      && (if is_hyphen c then negb after_hyphen && tidy true rest
          else tidy false rest)
  end.

(** ** Upload paths of awards *)

(** [Award.get_upload_meta]; [user] and [badge] are the rows the
    award's foreign keys resolve to. *)
Definition Award_get_upload_meta (user : User) (badge : Badge)
    : outcome (string * string) :=
  let u := username user in
  do u0 <- char_at u 0;
  do u1 <- char_at u 1;
  Return ("award/" ++ u0 ++ "/" ++ u1 ++ "/" ++ u, slug badge)%string.

(** [upload_to(instance, filename)] for the image of an award. *)
Definition Award_upload_to (field_fn ext : string) (user : User) (badge : Badge)
    (now entropy : Z) : outcome string :=
  do meta <- Award_get_upload_meta user badge;
  mk_upload_to field_fn ext meta now entropy.

Definition is_hex (c : ascii) : bool :=
  let n := N_of_ascii c in
  ((48 <=? n) && (n <=? 57) || (97 <=? n) && (n <=? 102))%N.

Definition is_digit (c : ascii) : bool :=
  let n := N_of_ascii c in ((48 <=? n) && (n <=? 57))%N.

Definition all_chars (p : ascii -> bool) (s : string) : bool :=
  forallb p (list_ascii_of_string s).

(** ** [Badge.clean] *)

(** What [Badge.clean] does to the image field. *)
Inductive cleaned : Type :=
| NoImage                          (* [self.image] is empty: nothing is done *)
| Rescaled (file : Scaled)         (* [self.image.file = scaled_file] *)
| ValidationError (message : string)
| Failed (e : exn).                (* an exception of [scale_image] passes through *)

(** [Badge.clean]; [image] is the image field of the badge: [None] when
    it is empty, otherwise what [Image.open] makes of its file. *)
Definition clean (image : option (option Image)) : cleaned :=
  match image with
  | None => NoImage
  | Some file =>
      match scale_image file IMG_MAX_SIZE with
      | Return None => ValidationError "Cannot process image"
      | Return (Some scaled_file) => Rescaled scaled_file
      | Raise e => Failed e
      end
  end.

(** ** [Badge.delete] *)

Definition key_in (k : Z) (pks : list Z) : bool := existsb (Z.eqb k) pks.

(** A badge row whose awarding prerequisite is one of the badges with
    the keys [pks]. *)
Definition depends_on (pks : list Z) (r : Badge) : bool :=
  match awarding_prerequisite r with
  | Some p => key_in (badge_pk p) pks
  | None => false
  end.

(** The deletion collector of [models.Model.delete]: a foreign key
    cascades, so a badge goes with the badge that is its awarding
    prerequisite.  Each round adds the rows that depend on the keys
    collected so far. *)
Fixpoint collect (rounds : nat) (table : list Badge) (pks : list Z) : list Z :=
  match rounds with
  | O => pks
  | S n =>
      collect n table (pks ++ map badge_pk (filter (depends_on pks) table))
  end.

(** The keys of the badges that go when [self] is deleted. *)
Definition deleted_keys (db : Store) (self : Badge) : list Z :=
  collect (List.length (badge_table db)) (badge_table db) [badge_pk self].

(** [models.Model.delete] for a badge: the collected badges go, and the
    awards of each of them. *)
Definition Model_delete (db : Store) (self : Badge) : Store :=
  let gone := deleted_keys db self in
  {| badge_table := filter (fun r => negb (key_in (badge_pk r) gone)) (badge_table db);
     award_table := filter (fun a => negb (key_in (award_badge a) gone)) (award_table db);
     award_seq := award_seq db |}.

(** [self.award_set.all().delete()]. *)
Definition delete_award_set (db : Store) (self : Badge) : Store :=
  {| badge_table := badge_table db;
     award_table := filter (fun a => negb (award_badge a =? badge_pk self))
                           (award_table db);
     award_seq := award_seq db |}.

(** [Badge.delete]. *)
Definition delete (db : Store) (self : Badge) : Store :=
  Model_delete (delete_award_set db self) self.

(** Every foreign key to a badge finds its row: the badge of each award,
    and the awarding prerequisite of each badge. *)
Definition references_ok (db : Store) : Prop :=
  (forall a, In a (award_table db) ->
     exists q, In q (badge_table db) /\ badge_pk q = award_badge a)
  /\ (forall r p, In r (badge_table db) -> awarding_prerequisite r = Some p ->
        exists q, In q (badge_table db) /\ badge_pk q = badge_pk p).

(** ** URL patterns *)

(** The regular expressions of [mome_rath/urls.py] as backtracking
    matchers: a matcher consumes a prefix of the path and hands the rest
    to its continuation [k]; where the continuation fails it tries its
    next alternative, longest match first, as [re] does. *)

Fixpoint strip_prefix (p s : string) : option string :=
  match p, s with
  | EmptyString, _ => Some s
  | String a p', String b s' => if Ascii.eqb a b then strip_prefix p' s' else None
  | String _ _, EmptyString => None
  end.

(** A literal. *)
Definition lit {A : Type} (p : string) (k : string -> option A) (s : string)
    : option A :=
  match strip_prefix p s with
  | Some rest => k rest
  | None => None
  end.

(** [p?]: with the literal first, then without. *)
Definition opt {A : Type} (p : string) (k : string -> option A) (s : string)
    : option A :=
  match lit p k s with
  | Some v => Some v
  | None => k s
  end.

Definition newline : string := String (ascii_of_N 10) "".

(** [$]: the end of the string, or just before a newline that ends it. *)
Definition eos {A : Type} (v : A) (s : string) : option A :=
  if String.eqb s "" || String.eqb s newline then Some v else None.

(** [(?P<name>[cls]+)]: one or more characters of the class, as many as
    the continuation accepts; [taken] is what the group holds so far. *)
Fixpoint plus {A : Type} (cls : ascii -> bool) (k : string -> string -> option A)
    (taken s : string) : option A :=
  match s with
  | EmptyString => None
  | String c rest =>
      if cls c then
        let taken' := (taken ++ String c "")%string in
        match plus cls k taken' rest with
        | Some v => Some v
        | None => k taken' rest
        end
      else None
  end.

(** [[^/]]. *)
Definition not_slash (c : ascii) : bool := negb (Ascii.eqb c "/").

(** The view a path is routed to, with the arguments the groups of its
    pattern capture. *)
Inductive view : Type :=
| BadgeIndex
| BadgeDetail (slug : string)
| BadgeEdit (slug : string)
| BadgeCreate
| AwardsByUser (username : string)
| AwardDetail (slug id : string).

(** [urlpatterns], in the order of the file. *)
Definition urlpatterns : list (string -> option view) :=
  [ (* ^$ *)
    eos BadgeIndex;
    (* ^badge/(?P<slug>[^/]+)/?$ *)
    lit "badge/" (plus not_slash (fun slug => opt "/" (eos (BadgeDetail slug))) "");
    (* ^badge/(?P<slug>[^/]+)/edit?$ *)
    lit "badge/" (plus not_slash
                    (fun slug => lit "/edi" (opt "t" (eos (BadgeEdit slug)))) "");
    (* ^new-badge$ *)
    lit "new-badge" (eos BadgeCreate);
    (* ^user/(?P<username>[^/]+)/?$ *)
    lit "user/" (plus not_slash (fun u => opt "/" (eos (AwardsByUser u))) "");
    (* ^badge/(?P<slug>[^/]+)/awards/(?P<id>\d+)/?$ *)
    lit "badge/"
        (plus not_slash
           (fun slug =>
              lit "/awards/"
                  (plus is_digit (fun id => opt "/" (eos (AwardDetail slug id))) ""))
           "") ].

(** The first pattern that matches decides. *)
Fixpoint resolve_in (patterns : list (string -> option view)) (path : string)
    : option view :=
  match patterns with
  | [] => None
  | p :: rest =>
      match p path with
      | Some v => Some v
      | None => resolve_in rest path
      end
  end.

(** [resolve] within [mome_rath.urls]; [path] comes without the leading
    slash. *)
Definition resolve (path : string) : option view := resolve_in urlpatterns path.

(** ** Views *)

Inductive response (A : Type) : Type :=
| Ok (page : A)
| Http404
| ServerError (e : exn).
Arguments Ok {A} page.
Arguments Http404 {A}.
Arguments ServerError {A} e.

(** [get_object_or_404]: only [DoesNotExist] becomes a 404. *)
Definition get_object_or_404 {A : Type} (found : outcome A) : response A :=
  match found with
  | Return a => Ok a
  | Raise DoesNotExist => Http404
  | Raise e => ServerError e
  end.

(** [BadgeDetail.get]: the template and its context. *)
Definition BadgeDetail_get (db : Store) (slug : string) : response (string * Badge) :=
  match get_object_or_404 (Badge_objects_get_slug db slug) with
  | Ok badge => Ok ("mome_rath/badge_detail.html", badge)
  | Http404 => Http404
  | ServerError e => ServerError e
  end.



(** A character class cannot go on into [t]: [t] is empty or starts with
    a character outside the class. *)
Definition stops (cls : ascii -> bool) (t : string) : bool :=
  match t with
  | EmptyString => true
  | String c _ => negb (cls c)
  end.

(** Bounds on what is left of the path when a matcher succeeds. *)
Definition leaves_at_most {A : Type} (n : nat) (k : string -> option A) : Prop :=
  forall r v, k r = Some v -> (String.length r <= n)%nat.

(** * Properties *)

(** ** The models of library code on known values *)

(** The MD5 test suite of RFC 1321. *)
Example md5_empty :
  MD5.hexdigest (utf8_encode "") = "d41d8cd98f00b204e9800998ecf8427e".
Proof. vm_compute. reflexivity. Qed.

Example md5_abc :
  MD5.hexdigest (utf8_encode "abc") = "900150983cd24fb0d6963f7d28e17f72".
Proof. vm_compute. reflexivity. Qed.

Example md5_message_digest :
  MD5.hexdigest (utf8_encode "message digest")
  = "f96b697d7cb7938d525a2f31aaf161d0".
Proof. vm_compute. reflexivity. Qed.

Example md5_two_blocks :
  MD5.hexdigest
    (utf8_encode
       "12345678901234567890123456789012345678901234567890123456789012345678901234567890")
  = "57edf4a22be3c955ac49da2e2107b67a".
Proof. vm_compute. reflexivity. Qed.

(** [int(49 * (1.0 / 49))] is 0 and [int(3 * (1.0 / 3))] is 1. *)
Example float_rounding :
  (do one <- PyFloat.of_int 1;
   do n <- PyFloat.of_int 49;
   do q <- PyFloat.truediv one n;
   PyFloat.to_int (PyFloat.mul n q)) = Return 0
  /\ (do one <- PyFloat.of_int 1;
      do n <- PyFloat.of_int 3;
      do q <- PyFloat.truediv one n;
      PyFloat.to_int (PyFloat.mul n q)) = Return 1.
Proof. split; vm_compute; reflexivity. Qed.

Example slugify_punctuation :
  slugify ascii_only "  Hello,   World -- it's_me! " = "hello-world-its_me".
Proof. vm_compute. reflexivity. Qed.

Example formats :
  fmt_04d 7 = "0007" /\ fmt_04d 1000 = "1000" /\ fmt_04d 12345 = "12345"
  /\ fmt_04d (-5) = "-005" /\ str_of_int 0 = "0" /\ str_of_int (-120) = "-120".
Proof. repeat split. Qed.

(** ** Query sets *)

Lemma award_matches_iff (u : User) (b : Badge) (a : Award) :
  award_matches u b a = true <->
  award_badge a = badge_pk b /\ award_user a = user_pk u.
Proof.
  unfold award_matches.
  rewrite andb_true_iff, !Z.eqb_eq. tauto.
Qed.

Lemma is_awarded_to_nonempty (db : Store) (b : Badge) (u : User) :
  is_awarded_to db b u = true <-> Award_objects_filter db u b <> [].
Proof.
  unfold is_awarded_to.
  destruct (Award_objects_filter db u b) as [|a rows]; cbn [List.length].
  - split; [discriminate | congruence].
  - split; [discriminate | intros _; apply Z.ltb_lt; lia].
Qed.

Lemma is_awarded_to_empty (db : Store) (b : Badge) (u : User) :
  is_awarded_to db b u = false <-> Award_objects_filter db u b = [].
Proof.
  unfold is_awarded_to.
  destruct (Award_objects_filter db u b) as [|a rows]; cbn [List.length].
  - split; reflexivity.
  - split; [|discriminate].
    intros H. apply Z.ltb_ge in H. lia.
Qed.

(** Rows are only ever added by [Award.objects.create]. *)
Lemma filter_after_create (db : Store) (now : Z) (who : User) (what : Badge)
    (by_ : option User) (d : string) (u : User) (b : Badge) :
  let (a, db') := Award_objects_create db now who what by_ d in
  Award_objects_filter db' u b =
  (Award_objects_filter db u b ++ (if award_matches u b a then [a] else []))%list.
Proof.
  unfold Award_objects_create, Award_objects_filter; cbn [award_table].
  rewrite filter_app. cbn [filter]. reflexivity.
Qed.

Lemma is_awarded_to_after_create (db : Store) (now : Z) (who : User) (what : Badge)
    (by_ : option User) (d : string) (u : User) (b : Badge) :
  is_awarded_to db b u = true ->
  is_awarded_to (snd (Award_objects_create db now who what by_ d)) b u = true.
Proof.
  rewrite !is_awarded_to_nonempty.
  pose proof (filter_after_create db now who what by_ d u b) as H.
  destruct (Award_objects_create db now who what by_ d) as [a db'].
  cbn [snd]. rewrite H. intros Hne Happ.
  apply app_eq_nil in Happ. tauto.
Qed.

Lemma allows_award_to_after_create (db : Store) (now : Z) (who : User) (what : Badge)
    (by_ : option User) (d : string) (b : Badge) (actor : option Actor) :
  allows_award_to db b actor = true ->
  allows_award_to (snd (Award_objects_create db now who what by_ d)) b actor = true.
Proof.
  unfold allows_award_to.
  destruct actor as [[|u]|]; try discriminate.
  destruct (is_superuser u); [reflexivity|].
  destruct (awarding_prerequisite b) as [p|]; [|discriminate].
  destruct (is_awarded_to db p u) eqn:Hp; [|discriminate].
  intros _. rewrite (is_awarded_to_after_create db now who what by_ d u p Hp).
  reflexivity.
Qed.

(** ** Award authorisation *)

(** C5. [B.is_awarded_to(U)] is true exactly when the award table holds
    at least one row whose badge is [B] and whose user is [U]. *)
Theorem is_awarded_to_iff_award_exists (db : Store) (B : Badge) (U : User) :
  is_awarded_to db B U = true <->
  exists a, In a (award_table db)
            /\ award_badge a = badge_pk B /\ award_user a = user_pk U.
Proof.
  rewrite is_awarded_to_nonempty. unfold Award_objects_filter. split.
  - destruct (filter (award_matches U B) (award_table db)) as [|a rows] eqn:Hf.
    + congruence.
    + intros _. exists a.
      assert (Hin : In a (filter (award_matches U B) (award_table db)))
        by (rewrite Hf; left; reflexivity).
      apply filter_In in Hin. destruct Hin as [Hin Hm].
      apply award_matches_iff in Hm. tauto.
  - intros [a [Hin Hkeys]] Hnil.
    assert (Hf : In a (filter (award_matches U B) (award_table db))).
    { apply filter_In. split; [exact Hin | apply award_matches_iff; tauto]. }
    rewrite Hnil in Hf. exact Hf.
Qed.

(** C1. [allows_award_to] is false for an absent and for an anonymous
    actor, true for a superuser, and for any other authenticated actor
    true exactly when the badge has an awarding prerequisite that is
    already awarded to the actor; so it is false for such an actor when no
    awarding prerequisite is set. *)
Theorem allows_award_to_cases (db : Store) (B : Badge) :
  allows_award_to db B None = false
  /\ allows_award_to db B (Some AnonymousUser) = false
  /\ (forall u, is_superuser u = true ->
        allows_award_to db B (Some (Authenticated u)) = true)
  /\ (forall u, is_superuser u = false ->
        (allows_award_to db B (Some (Authenticated u)) = true <->
         exists p, awarding_prerequisite B = Some p
                   /\ is_awarded_to db p u = true))
  /\ (forall u, is_superuser u = false -> awarding_prerequisite B = None ->
        allows_award_to db B (Some (Authenticated u)) = false).
Proof.
  split; [reflexivity|]. split; [reflexivity|].
  split; [|split]; intros u Hs; cbn [allows_award_to]; rewrite Hs.
  - reflexivity.
  - split.
    + destruct (awarding_prerequisite B) as [p|]; [|discriminate].
      destruct (is_awarded_to db p u) eqn:Hp; [|discriminate].
      intros _. exists p. split; [reflexivity | exact Hp].
    + intros [p [Hset Hp]]. rewrite Hset, Hp. reflexivity.
  - intros Hnone. rewrite Hnone. reflexivity.
Qed.

Lemma allows_award_to_cases_witness :
  allows_award_to Fixtures.school Fixtures.team_player
                  (Some (Authenticated Fixtures.admin)) = true
  /\ (allows_award_to Fixtures.school Fixtures.team_player
                      (Some (Authenticated Fixtures.teacher)) = true <->
      exists p, awarding_prerequisite Fixtures.team_player = Some p
                /\ is_awarded_to Fixtures.school p Fixtures.teacher = true)
  /\ allows_award_to Fixtures.school Fixtures.mentor
                     (Some (Authenticated Fixtures.teacher)) = false.
Proof.
  pose proof (allows_award_to_cases Fixtures.school Fixtures.team_player)
    as [_ [_ [Hsuper [Hiff _]]]].
  pose proof (allows_award_to_cases Fixtures.school Fixtures.mentor)
    as [_ [_ [_ [_ Hunset]]]].
  split; [apply Hsuper; reflexivity|].
  split; [apply Hiff; reflexivity|].
  apply Hunset; reflexivity.
Defined.

(** C2. [award_to] raises [BadgeAwardNotAllowedException] exactly when
    [allows_award_to(awarder)] is false, and then the store is the one it
    was called on: no award row has been written. *)
Theorem award_to_not_allowed (db : Store) (now : Z) (B : Badge) (awardee : User)
    (awarder : option Actor) (d : string) (raise_already_awarded : bool) :
  (fst (award_to db now B awardee awarder d raise_already_awarded)
     = Raise BadgeAwardNotAllowedException
   <-> allows_award_to db B awarder = false)
  /\ (allows_award_to db B awarder = false ->
      award_to db now B awardee awarder d raise_already_awarded
        = (Raise BadgeAwardNotAllowedException, db)).
Proof.
  unfold award_to.
  destruct (allows_award_to db B awarder); cbn [negb].
  - split; [|discriminate]. split; [|discriminate].
    destruct (is_awarded_to db B awardee) eqn:Hheld.
    + destruct raise_already_awarded; cbn [fst]; [discriminate|].
      unfold Award_objects_get.
      destruct (Award_objects_filter db awardee B) as [|a [|a' rows]];
        cbn [queryset_get]; discriminate.
    + destruct (Award_objects_create db now awardee B (actor_user awarder) d).
      cbn [fst]. discriminate.
  - repeat split; reflexivity.
Qed.

Lemma award_to_not_allowed_witness :
  award_to Fixtures.school 5 Fixtures.team_player Fixtures.pupil
           (Some (Authenticated Fixtures.pupil)) "well done" false
  = (Raise BadgeAwardNotAllowedException, Fixtures.school).
Proof.
  apply (award_to_not_allowed Fixtures.school 5 Fixtures.team_player
           Fixtures.pupil (Some (Authenticated Fixtures.pupil)) "well done" false).
  reflexivity.
Defined.

(** The three ways an authorised [award_to] can go, by what the filter on
    (awardee, badge) finds. *)
Lemma award_to_fresh (db : Store) (now : Z) (B : Badge) (awardee : User)
    (awarder : option Actor) (d : string) (strict : bool) :
  allows_award_to db B awarder = true ->
  Award_objects_filter db awardee B = [] ->
  award_to db now B awardee awarder d strict
  = (Return (fst (Award_objects_create db now awardee B (actor_user awarder) d)),
     snd (Award_objects_create db now awardee B (actor_user awarder) d)).
Proof.
  intros Hallow Hnone. unfold award_to.
  rewrite Hallow. cbn [negb].
  rewrite (proj2 (is_awarded_to_empty db B awardee) Hnone).
  destruct (Award_objects_create db now awardee B (actor_user awarder) d).
  reflexivity.
Qed.

Lemma award_to_held (db : Store) (now : Z) (B : Badge) (awardee : User)
    (awarder : option Actor) (d : string) (strict : bool) :
  allows_award_to db B awarder = true ->
  Award_objects_filter db awardee B <> [] ->
  award_to db now B awardee awarder d strict
  = (if strict then Raise BadgeAlreadyAwardedException
     else queryset_get (Award_objects_filter db awardee B), db).
Proof.
  intros Hallow Hsome. unfold award_to.
  rewrite Hallow. cbn [negb].
  rewrite (proj2 (is_awarded_to_nonempty db B awardee) Hsome).
  destruct strict; reflexivity.
Qed.

Lemma filter_of_created (db : Store) (now : Z) (B : Badge) (awardee : User)
    (by_ : option User) (d : string) :
  Award_objects_filter db awardee B = [] ->
  Award_objects_filter (snd (Award_objects_create db now awardee B by_ d)) awardee B
  = [fst (Award_objects_create db now awardee B by_ d)].
Proof.
  intros Hnone.
  pose proof (filter_after_create db now awardee B by_ d awardee B) as H.
  destruct (Award_objects_create db now awardee B by_ d) as [a db'] eqn:Hc.
  cbn [fst snd]. rewrite H, Hnone.
  unfold Award_objects_create in Hc. injection Hc as Ha _. subst a.
  unfold award_matches. cbn [award_user award_badge].
  rewrite !Z.eqb_refl. reflexivity.
Qed.

(** C3. With an authorised awarder and an awardee holding at most one
    award of the badge, two calls of [award_to] without
    [raise_already_awarded] return the same award; the second call
    returns the row the store has for the pair and leaves the store as it
    found it. *)
Theorem award_to_twice_same_award (db : Store) (now1 now2 : Z) (B : Badge)
    (awardee : User) (awarder : option Actor) (d1 d2 : string) :
  allows_award_to db B awarder = true ->
  (List.length (Award_objects_filter db awardee B) <= 1)%nat ->
  exists a db1,
    award_to db now1 B awardee awarder d1 false = (Return a, db1)
    /\ award_to db1 now2 B awardee awarder d2 false = (Return a, db1)
    /\ Award_objects_filter db1 awardee B = [a].
Proof.
  intros Hallow Hlen.
  destruct (Award_objects_filter db awardee B) as [|a rows] eqn:Hrows.
  - (* nothing held: the first call creates the row, the second reads it *)
    set (made := Award_objects_create db now1 awardee B (actor_user awarder) d1).
    exists (fst made), (snd made).
    pose proof (filter_of_created db now1 B awardee (actor_user awarder) d1 Hrows)
      as Hone.
    fold made in Hone.
    split; [apply award_to_fresh; assumption|].
    split; [|exact Hone].
    rewrite award_to_held.
    + rewrite Hone. reflexivity.
    + apply allows_award_to_after_create. exact Hallow.
    + rewrite Hone. discriminate.
  - (* one row held: both calls read it *)
    destruct rows as [|a' rows']; [|cbn [List.length] in Hlen; lia].
    exists a, db.
    assert (Hread : forall now d,
               award_to db now B awardee awarder d false = (Return a, db)).
    { intros now d. rewrite award_to_held.
      - rewrite Hrows. reflexivity.
      - exact Hallow.
      - rewrite Hrows. discriminate. }
    split; [apply Hread|]. split; [apply Hread | exact Hrows].
Qed.

Lemma award_to_twice_same_award_witness :
  exists a db1,
    award_to Fixtures.school 10 Fixtures.team_player Fixtures.pupil
             (Some (Authenticated Fixtures.teacher)) "helped" false = (Return a, db1)
    /\ award_to db1 20 Fixtures.team_player Fixtures.pupil
                (Some (Authenticated Fixtures.teacher)) "again" false = (Return a, db1)
    /\ Award_objects_filter db1 Fixtures.pupil Fixtures.team_player = [a].
Proof.
  apply (award_to_twice_same_award Fixtures.school 10 20 Fixtures.team_player
           Fixtures.pupil (Some (Authenticated Fixtures.teacher)) "helped" "again").
  - reflexivity.
  - cbn. lia.
Defined.

(** C10. When the store holds more than one award for (badge, awardee),
    an authorised [award_to] without [raise_already_awarded] returns none
    of them: the single-row lookup raises [MultipleObjectsReturned] and
    the store stays as it was. *)
Theorem award_to_duplicates_raise (db : Store) (now : Z) (B : Badge)
    (awardee : User) (awarder : option Actor) (d : string) :
  allows_award_to db B awarder = true ->
  (1 < List.length (Award_objects_filter db awardee B))%nat ->
  award_to db now B awardee awarder d false = (Raise MultipleObjectsReturned, db).
Proof.
  intros Hallow Hmany.
  rewrite award_to_held; [|exact Hallow|].
  - destruct (Award_objects_filter db awardee B) as [|a [|a' rows]];
      cbn [List.length] in Hmany; try lia.
    reflexivity.
  - intros Hnil. rewrite Hnil in Hmany. cbn in Hmany. lia.
Qed.

Lemma award_to_duplicates_raise_witness :
  award_to Fixtures.doubled 10 Fixtures.team_player Fixtures.pupil
           (Some (Authenticated Fixtures.admin)) "" false
  = (Raise MultipleObjectsReturned, Fixtures.doubled).
Proof.
  apply (award_to_duplicates_raise Fixtures.doubled 10 Fixtures.team_player
           Fixtures.pupil (Some (Authenticated Fixtures.admin)) "").
  - reflexivity.
  - cbn. lia.
Defined.

(** C4, as the code has it.  With an authorised awarder, of two calls of
    [award_to] with [raise_already_awarded] for the same badge and
    awardee the second raises [BadgeAlreadyAwardedException] and leaves
    the store as the first call left it.  The first call creates and
    returns the award when the awardee does not hold the badge yet; when
    the awardee holds it already, the first call raises
    [BadgeAlreadyAwardedException] as well and writes nothing. *)
Theorem award_to_twice_strict (db : Store) (now1 now2 : Z) (B : Badge)
    (awardee : User) (awarder : option Actor) (d1 d2 : string) :
  allows_award_to db B awarder = true ->
  exists r1 db1,
    award_to db now1 B awardee awarder d1 true = (r1, db1)
    /\ award_to db1 now2 B awardee awarder d2 true
       = (Raise BadgeAlreadyAwardedException, db1)
    /\ (is_awarded_to db B awardee = false ->
        exists a, r1 = Return a
                  /\ award_table db1 = (award_table db ++ [a])%list
                  /\ Award_objects_filter db1 awardee B = [a])
    /\ (is_awarded_to db B awardee = true ->
        r1 = Raise BadgeAlreadyAwardedException /\ db1 = db).
Proof.
  intros Hallow.
  destruct (is_awarded_to db B awardee) eqn:Hheld.
  - (* held already: both calls are refused *)
    apply is_awarded_to_nonempty in Hheld.
    exists (Raise BadgeAlreadyAwardedException), db.
    split; [apply award_to_held; assumption|].
    split; [apply award_to_held; assumption|].
    split; [discriminate|]. intros _. split; reflexivity.
  - (* not held: the first call creates the row the second one finds *)
    apply is_awarded_to_empty in Hheld.
    set (made := Award_objects_create db now1 awardee B (actor_user awarder) d1).
    pose proof (filter_of_created db now1 B awardee (actor_user awarder) d1 Hheld)
      as Hone.
    fold made in Hone.
    exists (Return (fst made)), (snd made).
    split; [apply award_to_fresh; assumption|].
    split.
    + rewrite award_to_held.
      * reflexivity.
      * apply allows_award_to_after_create. exact Hallow.
      * rewrite Hone. discriminate.
    + split; [|discriminate].
      intros _. exists (fst made).
      split; [reflexivity|]. split; [reflexivity | exact Hone].
Qed.

Lemma award_to_twice_strict_witness :
  exists r1 db1,
    award_to Fixtures.school 10 Fixtures.team_player Fixtures.pupil
             (Some (Authenticated Fixtures.teacher)) "helped" true = (r1, db1)
    /\ award_to db1 20 Fixtures.team_player Fixtures.pupil
                (Some (Authenticated Fixtures.teacher)) "again" true
       = (Raise BadgeAlreadyAwardedException, db1)
    /\ (is_awarded_to Fixtures.school Fixtures.team_player Fixtures.pupil = false ->
        exists a, r1 = Return a
                  /\ award_table db1 = (award_table Fixtures.school ++ [a])%list
                  /\ Award_objects_filter db1 Fixtures.pupil Fixtures.team_player = [a])
    /\ (is_awarded_to Fixtures.school Fixtures.team_player Fixtures.pupil = true ->
        r1 = Raise BadgeAlreadyAwardedException /\ db1 = Fixtures.school).
Proof.
  apply (award_to_twice_strict Fixtures.school 10 20 Fixtures.team_player
           Fixtures.pupil (Some (Authenticated Fixtures.teacher)) "helped" "again").
  reflexivity.
Defined.

(** C4 as stated fails for an awardee who holds the badge already: the
    first strict call of an authorised awarder does not succeed. *)
Lemma award_to_strict_first_call_fails :
  allows_award_to Fixtures.school Fixtures.mentor
                  (Some (Authenticated Fixtures.admin)) = true
  /\ award_to Fixtures.school 10 Fixtures.mentor Fixtures.teacher
              (Some (Authenticated Fixtures.admin)) "" true
     = (Raise BadgeAlreadyAwardedException, Fixtures.school)
  /\ ~ (exists a db1,
          award_to Fixtures.school 10 Fixtures.mentor Fixtures.teacher
                   (Some (Authenticated Fixtures.admin)) "" true = (Return a, db1)).
Proof.
  split; [reflexivity|]. split; [reflexivity|].
  intros [a [db1 H]]. discriminate H.
Qed.

(** ** Badge creation permission *)

Lemma filter_none {A : Type} (f : A -> bool) (l : list A) :
  (forall x, In x l -> f x = false) -> filter f l = [].
Proof.
  induction l as [|x l IH]; intros Hall; cbn [filter]; [reflexivity|].
  rewrite (Hall x (or_introl eq_refl)).
  apply IH. intros y Hy. apply Hall. right. exact Hy.
Qed.

Lemma queryset_get_member {A : Type} (rows : list A) (a : A) :
  queryset_get rows = Return a -> rows = [a].
Proof.
  destruct rows as [|x [|y rows]]; cbn [queryset_get]; intros H;
    try discriminate.
  injection H as ->. reflexivity.
Qed.

(** C6. [allows_add_by] returns true only if the badge table has a badge
    with slug [creator] that is awarded to the user; and when no badge
    has that slug it returns false, no exception raised. *)
Theorem allows_add_by_creator (db : Store) (user : Actor) :
  (allows_add_by db user = Return true ->
   exists u b, user = Authenticated u
               /\ In b (badge_table db) /\ slug b = "creator"
               /\ is_awarded_to db b u = true)
  /\ ((forall b, In b (badge_table db) -> slug b <> "creator") ->
      allows_add_by db user = Return false).
Proof.
  unfold allows_add_by, Badge_objects_get_slug. split.
  - destruct user as [|u]; [discriminate|].
    destruct (queryset_get _) as [b|e] eqn:Hget.
    + intros Hheld. injection Hheld as Hheld.
      apply queryset_get_member in Hget.
      assert (Hin : In b (filter (fun b0 => (slug b0 =? "creator")%string)
                                 (badge_table db)))
        by (rewrite Hget; left; reflexivity).
      apply filter_In in Hin. destruct Hin as [Hin Hslug].
      apply String.eqb_eq in Hslug.
      exists u, b. repeat split; assumption.
    + destruct e; discriminate.
  - intros Hnone. destruct user as [|u]; [reflexivity|].
    rewrite filter_none; [reflexivity|].
    intros b Hin. apply String.eqb_neq. apply Hnone. exact Hin.
Qed.

Lemma allows_add_by_creator_witness :
  (exists u b, Authenticated Fixtures.teacher = Authenticated u
               /\ In b (badge_table Fixtures.school) /\ slug b = "creator"
               /\ is_awarded_to Fixtures.school b u = true)
  /\ allows_add_by Fixtures.empty (Authenticated Fixtures.teacher) = Return false.
Proof.
  split.
  - apply (proj1 (allows_add_by_creator Fixtures.school
                    (Authenticated Fixtures.teacher))).
    reflexivity.
  - apply (proj2 (allows_add_by_creator Fixtures.empty
                    (Authenticated Fixtures.teacher))).
    intros b Hin. destruct Hin.
Defined.

(** ** Slugs *)

Lemma Model_save_stores (db : Store) (b : Badge) (db' : Store) :
  Model_save db b = (Return tt, db') -> In b (badge_table db').
Proof.
  unfold Model_save.
  destruct (existsb _ (badge_table db)); [discriminate|].
  intros H. injection H as <-. cbn [badge_table].
  destruct (existsb (fun r => badge_pk r =? badge_pk b) (badge_table db)) eqn:Hkey.
  - apply existsb_exists in Hkey. destruct Hkey as [r [Hin Hr]].
    apply in_map_iff. exists r. rewrite Hr. split; [reflexivity | exact Hin].
  - apply in_or_app. right. left. reflexivity.
Qed.

(** C9. [Badge.save] on a badge whose slug is empty leaves the badge with
    the slug [slugify(title)] and hands that badge to the store, which
    files it under that slug when it accepts it; a badge whose slug is
    set is saved as it is.  With title [Team Player] and no slug the slug
    becomes [team-player]. *)
Theorem save_derives_slug (to_ascii : string -> string) (db : Store) (self : Badge) :
  (slug self = "" ->
   slug (fst (save to_ascii db self)) = slugify to_ascii (title self)
   /\ title (fst (save to_ascii db self)) = title self
   /\ forall db', snd (save to_ascii db self) = (Return tt, db') ->
        exists row, In row (badge_table db')
                    /\ badge_pk row = badge_pk self
                    /\ slug row = slugify to_ascii (title self))
  /\ (slug self <> "" ->
      save to_ascii db self = (self, Model_save db self))
  /\ (to_ascii "Team Player" = "Team Player" ->
      title self = "Team Player" -> slug self = "" ->
      slug (fst (save to_ascii db self)) = "team-player").
Proof.
  unfold save. split; [|split].
  - intros Hempty. rewrite Hempty. cbn [String.eqb fst snd set_slug slug title].
    split; [reflexivity|]. split; [reflexivity|].
    intros db' Hsaved. apply Model_save_stores in Hsaved.
    eexists. split; [exact Hsaved|]. split; reflexivity.
  - intros Hset. apply String.eqb_neq in Hset. rewrite Hset. reflexivity.
  - intros Hascii Htitle Hempty. rewrite Hempty, Htitle.
    cbn [String.eqb fst set_slug slug].
    unfold slugify. rewrite Hascii. reflexivity.
Qed.

Lemma save_derives_slug_witness :
  slug (fst (save ascii_only Fixtures.school Fixtures.team_player)) = "team-player"
  /\ save ascii_only Fixtures.school Fixtures.mentor
     = (Fixtures.mentor, Model_save Fixtures.school Fixtures.mentor).
Proof.
  pose proof (save_derives_slug ascii_only Fixtures.school Fixtures.team_player)
    as [_ [_ Hteam]].
  pose proof (save_derives_slug ascii_only Fixtures.school Fixtures.mentor)
    as [_ [Hkept _]].
  split.
  - apply Hteam; reflexivity.
  - apply Hkept. discriminate.
Defined.

(** ** Upload paths *)

Lemma hexdigest_chars (msg : list Z) :
  exists h1 h2 rest,
    MD5.hexdigest msg = String h1 (String h2 rest)
    /\ String.length (MD5.hexdigest msg) = 32%nat.
Proof.
  unfold MD5.hexdigest, MD5.digest.
  destruct (MD5.blocks _ MD5.init _) as [[[a b] c] d].
  unfold MD5.le_bytes. cbn [seq map app MD5.hex String.length].
  do 3 eexists. split; reflexivity.
Qed.

Lemma randint_range (a b entropy : Z) :
  a <= b -> a <= randint a b entropy <= b.
Proof.
  intros Hab. unfold randint.
  pose proof (Z.mod_pos_bound entropy (b - a + 1)). lia.
Qed.

Lemma randint_onto (a b r : Z) :
  a <= r <= b -> randint a b (r - a) = r.
Proof.
  intros Hr. unfold randint. rewrite Z.mod_small by lia. lia.
Qed.

Lemma digit_char_value (d : Z) :
  0 <= d < 10 -> Z.of_N (N_of_ascii (digit_char d)) - 48 = d.
Proof.
  intros Hd. unfold digit_char.
  rewrite N_ascii_embedding by lia. lia.
Qed.

(** [digits] writes the decimal digits of [n] in front of [acc] when the
    fuel covers them. *)
Lemma digits_value (fuel : nat) :
  forall n acc, 0 <= n < 10 ^ Z.of_nat fuel ->
    decimal_value 0 (digits fuel n acc) = decimal_value n acc.
Proof.
  induction fuel as [|fuel IH]; intros n acc Hn.
  - cbn [digits]. change (10 ^ Z.of_nat 0) with 1 in Hn.
    replace n with 0 by lia. reflexivity.
  - cbn [digits].
    assert (Hdigit : 0 <= n mod 10 < 10) by (apply Z.mod_pos_bound; lia).
    destruct (n <? 10) eqn:Hsmall.
    + apply Z.ltb_lt in Hsmall. cbn [decimal_value].
      rewrite digit_char_value by exact Hdigit.
      rewrite Z.mod_small by lia. reflexivity.
    + apply Z.ltb_ge in Hsmall.
      rewrite IH.
      * cbn [decimal_value]. rewrite digit_char_value by exact Hdigit.
        f_equal. pose proof (Z.div_mod n 10). lia.
      * rewrite Nat2Z.inj_succ, Z.pow_succ_r in Hn by lia.
        split; [apply Z.div_pos; lia|].
        apply Z.div_lt_upper_bound; lia.
Qed.

(** ['%s' % n] of a non-negative integer reads back as [n]. *)
Lemma str_of_int_value (n : Z) :
  0 <= n -> decimal_value 0 (str_of_int n) = n.
Proof.
  intros Hn. unfold str_of_int.
  destruct (n <? 0) eqn:Hneg; [apply Z.ltb_lt in Hneg; lia|].
  rewrite digits_value; [reflexivity|].
  split; [exact Hn|].
  rewrite Nat2Z.inj_succ, Z2Nat.id by apply Z.log2_nonneg.
  destruct (Z.eq_dec n 0) as [->|Hpos]; [reflexivity|].
  apply Z.lt_le_trans with (2 ^ Z.succ (Z.log2 n)).
  - apply Z.log2_spec. lia.
  - apply Z.pow_le_mono_l. pose proof (Z.log2_nonneg n). lia.
Qed.

(** ['%04d' % r] has exactly four characters for every [r] that
    [randint(0, 1000)] can return, by evaluation of all of them. *)
Lemma fmt_04d_width (r : Z) :
  0 <= r <= 1000 -> String.length (fmt_04d r) = 4%nat.
Proof.
  intros Hr.
  assert (Hall : forallb (fun i => Nat.eqb (String.length (fmt_04d (Z.of_nat i))) 4)
                         (seq 0 1001) = true) by (vm_compute; reflexivity).
  rewrite forallb_forall in Hall.
  specialize (Hall (Z.to_nat r)).
  rewrite Z2Nat.id in Hall by lia.
  apply Nat.eqb_eq. apply Hall.
  apply in_seq. lia.
Qed.

(** C8, as the code has it.  The path built for upload meta (base, slug)
    is [base/h1/h2/hash_field_timestamp_rand.ext]: [hash] is the MD5 hex
    digest (32 characters) of the slug, [h1] and [h2] are its first two
    characters, the time stamp is the clock's seconds in decimal, and
    [rand] is an integer of the closed range 0..1000, each value of which
    can be drawn, written in four characters. *)
Theorem mk_upload_to_path (field_fn ext base slug : string) (now entropy : Z) :
  exists h1 h2 rest rand,
    MD5.hexdigest (utf8_encode slug) = String h1 (String h2 rest)
    /\ String.length (MD5.hexdigest (utf8_encode slug)) = 32%nat
    /\ 0 <= rand <= 1000
    /\ String.length (fmt_04d rand) = 4%nat
    /\ (0 <= now -> decimal_value 0 (str_of_int now) = now)
    /\ mk_upload_to field_fn ext (base, slug) now entropy
       = Return (base ++ "/" ++ String h1 "" ++ "/" ++ String h2 "" ++ "/"
                 ++ MD5.hexdigest (utf8_encode slug) ++ "_" ++ field_fn ++ "_"
                 ++ str_of_int now ++ "_" ++ fmt_04d rand ++ "." ++ ext)%string
    /\ (forall r, 0 <= r <= 1000 ->
          mk_upload_to field_fn ext (base, slug) now r
          = Return (MK_UPLOAD_TMPL base (String h1 "") (String h2 "")
                      (MD5.hexdigest (utf8_encode slug)) field_fn now r ext)).
Proof.
  destruct (hexdigest_chars (utf8_encode slug)) as [h1 [h2 [rest [Hshape Hlen]]]].
  exists h1, h2, rest, (randint 0 1000 entropy).
  assert (Hrand : 0 <= randint 0 1000 entropy <= 1000)
    by (apply randint_range; lia).
  split; [exact Hshape|]. split; [exact Hlen|].
  split; [exact Hrand|].
  split; [apply fmt_04d_width; exact Hrand|].
  split; [apply str_of_int_value|].
  unfold mk_upload_to, char_at. rewrite Hshape. cbn [String.get bind].
  split; [reflexivity|].
  intros r Hr. replace (randint 0 1000 r) with r; [reflexivity|].
  pose proof (randint_onto 0 1000 r Hr) as H.
  rewrite Z.sub_0_r in H. symmetry. exact H.
Qed.

Lemma mk_upload_to_path_witness :
  mk_upload_to "image" "png" (get_upload_meta Fixtures.creator_badge) 1400000000 7
  = Return "badge/e/e/ee2433259b0fe399b40e81d2c98a38b6_image_1400000000_0007.png".
Proof.
  destruct (mk_upload_to_path "image" "png" "badge" "creator" 1400000000 7)
    as [h1 [h2 [rest [rand [Hshape [_ [_ [_ [_ [_ Hall]]]]]]]]]].
  unfold get_upload_meta. cbn [slug Fixtures.creator_badge].
  rewrite (Hall 7) by lia.
  vm_compute in Hshape. injection Hshape as <- <- _.
  vm_compute. reflexivity.
Defined.

(** C8 as stated bounds the random component by 999; [randint(0, 1000)]
    also yields 1000, and the path then ends in [_1000.png]. *)
Lemma mk_upload_to_rand_1000 :
  randint 0 1000 1000 = 1000
  /\ ~ (0 <= randint 0 1000 1000 <= 999)
  /\ mk_upload_to "image" "png" (get_upload_meta Fixtures.creator_badge)
                  1400000000 1000
     = Return "badge/e/e/ee2433259b0fe399b40e81d2c98a38b6_image_1400000000_1000.png".
Proof.
  split; [reflexivity|]. split; [|vm_compute; reflexivity].
  vm_compute. intros [_ H]. apply H. reflexivity.
Qed.

(** ** Image scaling *)

(** An upload that does not decode is answered with [None]. *)
Lemma scale_image_undecodable (img_max_size : Z * Z) :
  scale_image None img_max_size = Return None.
Proof. reflexivity. Qed.

(** For the default 256 x 256 target the crop is the centred square of
    the shorter side, in integer arithmetic; checked by evaluation for
    every source size up to 40 x 40. *)
Lemma scale_image_box_square (src_width src_height : Z) :
  1 <= src_width <= 40 -> 1 <= src_height <= 40 ->
  scale_image_box src_width src_height 256 256
  = Return (if src_height <? src_width
            then let x := (src_width - src_height) / 2 in
                 (x, 0, x + src_height, src_height)
            else let y := (src_height - src_width) / 2 in
                 (0, y, src_width, y + src_width)).
Proof.
  intros Hw Hh.
  set (expected := fun sw sh : Z =>
         if sh <? sw
         then let x := (sw - sh) / 2 in (x, 0, x + sh, sh)
         else let y := (sh - sw) / 2 in (0, y, sw, y + sw)).
  set (agrees := fun sw sh : Z =>
         match scale_image_box sw sh 256 256 with
         | Return box => box_eqb box (expected sw sh)
         | Raise _ => false
         end).
  assert (Hgrid : forallb (fun i => forallb (fun j => agrees (Z.of_nat i) (Z.of_nat j))
                                            (seq 1 40))
                          (seq 1 40) = true) by (vm_compute; reflexivity).
  rewrite forallb_forall in Hgrid.
  specialize (Hgrid (Z.to_nat src_width) ltac:(apply in_seq; lia)).
  rewrite forallb_forall in Hgrid.
  specialize (Hgrid (Z.to_nat src_height) ltac:(apply in_seq; lia)).
  rewrite !Z2Nat.id in Hgrid by lia.
  unfold agrees in Hgrid.
  change (scale_image_box src_width src_height 256 256
          = Return (expected src_width src_height)).
  destruct (scale_image_box src_width src_height 256 256) as [box|]; [|discriminate].
  destruct box as [[[a b] c] d]. destruct (expected src_width src_height) as [[[a' b'] c'] d'].
  cbn [box_eqb] in Hgrid.
  rewrite !andb_true_iff, !Z.eqb_eq in Hgrid.
  destruct Hgrid as [[[-> ->] ->] ->]. reflexivity.
Qed.



(** * Further properties of the models *)

(** ** What [award_to] writes *)

(** Every call of [award_to] leaves the badge table alone and either
    leaves the store as it is or appends one award row, the one it
    returns: the row of the awardee, the badge and the awarder, with the
    next key of the sequence. *)
Theorem award_to_appends (db : Store) (now : Z) (B : Badge) (awardee : User)
    (awarder : option Actor) (d : string) (strict : bool) :
  let r := fst (award_to db now B awardee awarder d strict) in
  let db' := snd (award_to db now B awardee awarder d strict) in
  badge_table db' = badge_table db
  /\ (db' = db
      \/ exists a,
           r = Return a
           /\ award_table db' = (award_table db ++ [a])%list
           /\ award_seq db' = award_seq db + 1
           /\ award_pk a = award_seq db
           /\ award_user a = user_pk awardee
           /\ award_badge a = badge_pk B
           /\ award_creator a = option_map user_pk (actor_user awarder)
           /\ description a = d
           /\ is_awarded_to db B awardee = false).
Proof.
  unfold award_to.
  destruct (allows_award_to db B awarder); cbn [negb fst snd].
  - destruct (is_awarded_to db B awardee) eqn:Hheld.
    + destruct strict; cbn [fst snd]; split; auto.
    + unfold Award_objects_create. cbn [fst snd badge_table award_table award_seq].
      split; [reflexivity|]. right.
      eexists. repeat split.
  - split; auto.
Qed.

Lemma award_to_store_cases (db : Store) (now : Z) (B : Badge) (awardee : User)
    (awarder : option Actor) (d : string) (strict : bool) :
  snd (award_to db now B awardee awarder d strict) = db
  \/ (is_awarded_to db B awardee = false
      /\ snd (award_to db now B awardee awarder d strict)
         = snd (Award_objects_create db now awardee B (actor_user awarder) d)).
Proof.
  unfold award_to.
  destruct (allows_award_to db B awarder); cbn [negb]; [|left; reflexivity].
  destruct (is_awarded_to db B awardee).
  - destruct strict; left; reflexivity.
  - right. split; [reflexivity|].
    destruct (Award_objects_create db now awardee B (actor_user awarder) d).
    reflexivity.
Qed.

(** ** Invariants *)

Lemma filter_matches_pair (u : User) (b : Badge) (l : list Award) :
  filter (award_matches u b) l = [] <->
  ~ In (user_pk u, badge_pk b) (map award_pair l).
Proof.
  induction l as [|a l IH]; cbn [filter map In].
  - tauto.
  - destruct (award_matches u b a) eqn:Hm.
    + apply award_matches_iff in Hm. destruct Hm as [Hb Hu].
      split; [discriminate|]. intros Hnot. exfalso. apply Hnot. left.
      unfold award_pair. rewrite Hb, Hu. reflexivity.
    + rewrite IH. split.
      * intros Hnot [Heq|Hin]; [|tauto].
        unfold award_pair in Heq. injection Heq as Hu Hb.
        assert (award_matches u b a = true) by (apply award_matches_iff; tauto).
        congruence.
      * tauto.
Qed.

(** On a table without duplicate pairs the filter on a pair finds at
    most one row. *)
Lemma awards_unique_at_most_one (db : Store) (u : User) (b : Badge) :
  awards_unique db ->
  (List.length (Award_objects_filter db u b) <= 1)%nat.
Proof.
  unfold awards_unique, Award_objects_filter.
  induction (award_table db) as [|a l IH]; cbn [map filter]; intros Hnd.
  - cbn. lia.
  - apply NoDup_cons_iff in Hnd. destruct Hnd as [Hfresh Hnd].
    destruct (award_matches u b a) eqn:Hm.
    + apply award_matches_iff in Hm. destruct Hm as [Hb Hu].
      assert (Hnone : filter (award_matches u b) l = []).
      { apply filter_matches_pair. unfold award_pair in Hfresh.
        rewrite Hb, Hu in Hfresh. exact Hfresh. }
      rewrite Hnone. cbn. lia.
    + apply IH. exact Hnd.
Qed.

(** [award_to] keeps the award table free of duplicate (user, badge)
    pairs, whatever it answers. *)
Lemma award_to_keeps_unique (db : Store) (now : Z) (B : Badge) (awardee : User)
    (awarder : option Actor) (d : string) (strict : bool) :
  awards_unique db ->
  awards_unique (snd (award_to db now B awardee awarder d strict)).
Proof.
  intros Hu.
  destruct (award_to_store_cases db now B awardee awarder d strict)
    as [-> | [Hnot ->]]; [exact Hu|].
  apply is_awarded_to_empty in Hnot.
  unfold awards_unique, Award_objects_create. cbn [snd award_table].
  rewrite map_app. apply NoDup_app.
  - exact Hu.
  - cbn. constructor; [intros []|constructor].
  - intros pair Hin [<-|[]].
    unfold Award_objects_filter in Hnot.
    apply filter_matches_pair in Hnot. apply Hnot. exact Hin.
Qed.

(** [award_to] keeps the keys of the award rows distinct and below the
    sequence: a new row never takes the key of a row that is there. *)
Lemma award_to_keeps_keys (db : Store) (now : Z) (B : Badge) (awardee : User)
    (awarder : option Actor) (d : string) (strict : bool) :
  award_keys_ok db ->
  award_keys_ok (snd (award_to db now B awardee awarder d strict)).
Proof.
  intros [Hnd Hbelow].
  destruct (award_to_store_cases db now B awardee awarder d strict)
    as [-> | [_ ->]]; [split; assumption|].
  unfold award_keys_ok, Award_objects_create. cbn [snd award_table award_seq].
  split.
  - rewrite map_app. apply NoDup_app.
    + exact Hnd.
    + cbn. constructor; [intros []|constructor].
    + intros k Hin [<-|[]].
      apply in_map_iff in Hin. destruct Hin as [a [Hk Hin]].
      rewrite Forall_forall in Hbelow. specialize (Hbelow a Hin).
      cbn [award_pk] in Hk. lia.
  - apply Forall_app. split.
    + eapply Forall_impl; [|exact Hbelow]. cbn. intros a Ha. lia.
    + constructor; [cbn; lia|constructor].
Qed.

(** Any sequence of [award_to] calls keeps both invariants; started on an
    empty award table it never leaves a pair with two awards, so that no
    later lookup of a pair can find more than one row. *)
Theorem award_all_invariants (db : Store) (calls : list AwardCall) :
  awards_unique db -> award_keys_ok db ->
  awards_unique (award_all db calls)
  /\ award_keys_ok (award_all db calls)
  /\ forall u b,
       (List.length (Award_objects_filter (award_all db calls) u b) <= 1)%nat.
Proof.
  revert db. unfold award_all.
  induction calls as [|c calls IH]; intros db Hu Hk; cbn [fold_left].
  - split; [exact Hu|]. split; [exact Hk|].
    intros u b. apply awards_unique_at_most_one. exact Hu.
  - apply IH; unfold run_award_to.
    + apply award_to_keeps_unique. exact Hu.
    + apply award_to_keeps_keys. exact Hk.
Qed.

Lemma award_all_invariants_witness :
  awards_unique
    (award_all Fixtures.empty
       [mkAwardCall 1 Fixtures.mentor Fixtures.teacher
                    (Some (Authenticated Fixtures.admin)) "" false;
        mkAwardCall 2 Fixtures.mentor Fixtures.teacher
                    (Some (Authenticated Fixtures.admin)) "" false]).
Proof.
  apply (award_all_invariants Fixtures.empty).
  - unfold awards_unique. cbn. constructor.
  - split; cbn; constructor.
Defined.

(** ** What a successful [award_to] establishes *)

Lemma award_to_success_held (db db' : Store) (now : Z) (B : Badge)
    (awardee : User) (awarder : option Actor) (d : string) (strict : bool)
    (a : Award) :
  award_to db now B awardee awarder d strict = (Return a, db') ->
  is_awarded_to db' B awardee = true /\ badge_table db' = badge_table db.
Proof.
  unfold award_to.
  destruct (allows_award_to db B awarder); cbn [negb]; [|discriminate].
  destruct (is_awarded_to db B awardee) eqn:Hheld.
  - destruct strict; [discriminate|].
    intros H. injection H as _ <-. split; [exact Hheld | reflexivity].
  - apply is_awarded_to_empty in Hheld.
    pose proof (filter_of_created db now B awardee (actor_user awarder) d Hheld)
      as Hone.
    destruct (Award_objects_create db now awardee B (actor_user awarder) d)
      as [a0 db0] eqn:Hc.
    intros H. injection H as _ <-. cbn [snd] in Hone. split.
    + apply is_awarded_to_nonempty. rewrite Hone. discriminate.
    + unfold Award_objects_create in Hc. injection Hc as _ <-. reflexivity.
Qed.

(** When [award_to] returns an award, that award is a row of the store
    it leaves, it is the awardee's award of the badge, and
    [is_awarded_to] holds for the awardee from then on. *)
Theorem award_to_returns_held (db db' : Store) (now : Z) (B : Badge)
    (awardee : User) (awarder : option Actor) (d : string) (strict : bool)
    (a : Award) :
  award_to db now B awardee awarder d strict = (Return a, db') ->
  In a (award_table db')
  /\ award_user a = user_pk awardee
  /\ award_badge a = badge_pk B
  /\ is_awarded_to db' B awardee = true
  /\ allows_award_to db B awarder = true.
Proof.
  unfold award_to.
  destruct (allows_award_to db B awarder); cbn [negb]; [|discriminate].
  destruct (is_awarded_to db B awardee) eqn:Hheld.
  - destruct strict; [discriminate|].
    intros H. injection H as Hget <-.
    apply queryset_get_member in Hget.
    assert (Hin : In a (Award_objects_filter db awardee B))
      by (rewrite Hget; left; reflexivity).
    unfold Award_objects_filter in Hin. apply filter_In in Hin.
    destruct Hin as [Hin Hm]. apply award_matches_iff in Hm.
    repeat split; tauto.
  - apply is_awarded_to_empty in Hheld.
    pose proof (filter_of_created db now B awardee (actor_user awarder) d Hheld)
      as Hone.
    destruct (Award_objects_create db now awardee B (actor_user awarder) d)
      as [a0 db0] eqn:Hc.
    intros H. injection H as <- <-. cbn [fst snd] in Hone.
    assert (Hin : In a0 (Award_objects_filter db0 awardee B))
      by (rewrite Hone; left; reflexivity).
    unfold Award_objects_filter in Hin. apply filter_In in Hin.
    destruct Hin as [Hin Hm]. apply award_matches_iff in Hm.
    split; [exact Hin|]. split; [tauto|]. split; [tauto|].
    split; [|reflexivity].
    apply is_awarded_to_nonempty. rewrite Hone. discriminate.
Qed.

Lemma award_to_returns_held_witness :
  is_awarded_to
    (snd (award_to Fixtures.school 10 Fixtures.team_player Fixtures.pupil
                   (Some (Authenticated Fixtures.teacher)) "" false))
    Fixtures.team_player Fixtures.pupil = true.
Proof.
  eapply (award_to_returns_held Fixtures.school _ 10 Fixtures.team_player
            Fixtures.pupil (Some (Authenticated Fixtures.teacher)) "" false).
  reflexivity.
Defined.

(** [award_to] for one (badge, awardee) pair changes [is_awarded_to] for
    no other pair, and never takes a held badge away. *)
Theorem award_to_frame (db : Store) (now : Z) (B : Badge) (awardee : User)
    (awarder : option Actor) (d : string) (strict : bool) (b : Badge) (u : User) :
  let db' := snd (award_to db now B awardee awarder d strict) in
  (is_awarded_to db b u = true -> is_awarded_to db' b u = true)
  /\ (badge_pk b <> badge_pk B \/ user_pk u <> user_pk awardee ->
      is_awarded_to db' b u = is_awarded_to db b u).
Proof.
  cbn zeta.
  destruct (award_to_store_cases db now B awardee awarder d strict)
    as [-> | [_ ->]]; [split; auto|].
  split.
  - apply is_awarded_to_after_create.
  - intros Hother.
    pose proof (filter_after_create db now awardee B (actor_user awarder) d u b)
      as Hf.
    destruct (Award_objects_create db now awardee B (actor_user awarder) d)
      as [a0 db0] eqn:Hc.
    cbn [snd]. unfold is_awarded_to. rewrite Hf.
    replace (award_matches u b a0) with false; [rewrite app_nil_r; reflexivity|].
    symmetry. apply not_true_is_false. intros Hm.
    apply award_matches_iff in Hm.
    unfold Award_objects_create in Hc. injection Hc as <- _.
    cbn [award_badge award_user] in Hm. destruct Hm as [Hb Hu].
    destruct Hother as [Hne|Hne]; apply Hne; congruence.
Qed.

Lemma award_to_frame_witness :
  is_awarded_to
    (snd (award_to Fixtures.school 10 Fixtures.team_player Fixtures.pupil
                   (Some (Authenticated Fixtures.teacher)) "" false))
    Fixtures.mentor Fixtures.pupil
  = is_awarded_to Fixtures.school Fixtures.mentor Fixtures.pupil.
Proof.
  apply (award_to_frame Fixtures.school 10 Fixtures.team_player Fixtures.pupil
           (Some (Authenticated Fixtures.teacher)) "" false
           Fixtures.mentor Fixtures.pupil).
  left. discriminate.
Defined.

(** ** Authorisation over time *)

(** No call of [award_to] takes an authorisation away: who may award a
    badge before the call may award it after. *)
Theorem award_to_keeps_authorisation (db : Store) (now : Z) (B : Badge)
    (awardee : User) (awarder : option Actor) (d : string) (strict : bool)
    (b : Badge) (actor : option Actor) :
  allows_award_to db b actor = true ->
  allows_award_to (snd (award_to db now B awardee awarder d strict)) b actor = true.
Proof.
  destruct (award_to_store_cases db now B awardee awarder d strict)
    as [-> | [_ ->]]; [auto|].
  apply allows_award_to_after_create.
Qed.

Lemma award_to_keeps_authorisation_witness :
  allows_award_to
    (snd (award_to Fixtures.school 10 Fixtures.team_player Fixtures.pupil
                   (Some (Authenticated Fixtures.teacher)) "" false))
    Fixtures.team_player (Some (Authenticated Fixtures.teacher)) = true.
Proof.
  apply award_to_keeps_authorisation. reflexivity.
Defined.

(** Awarding the awarding prerequisite of a badge to a user makes that
    user an awarder of the badge. *)
Theorem award_of_prerequisite_authorises (db db' : Store) (now : Z)
    (B P : Badge) (u : User) (awarder : option Actor) (d : string)
    (strict : bool) (a : Award) :
  awarding_prerequisite B = Some P ->
  award_to db now P u awarder d strict = (Return a, db') ->
  allows_award_to db' B (Some (Authenticated u)) = true.
Proof.
  intros Hpre Hawarded.
  apply award_to_success_held in Hawarded.
  destruct Hawarded as [Hheld _].
  cbn [allows_award_to]. rewrite Hpre, Hheld.
  destruct (is_superuser u); reflexivity.
Qed.

Lemma award_of_prerequisite_authorises_witness :
  allows_award_to Fixtures.school Fixtures.team_player
                  (Some (Authenticated Fixtures.pupil)) = false
  /\ allows_award_to
       (snd (award_to Fixtures.school 10 Fixtures.mentor Fixtures.pupil
                      (Some (Authenticated Fixtures.admin)) "" false))
       Fixtures.team_player (Some (Authenticated Fixtures.pupil)) = true.
Proof.
  split; [reflexivity|].
  eapply (award_of_prerequisite_authorises Fixtures.school _ 10
            Fixtures.team_player Fixtures.mentor Fixtures.pupil
            (Some (Authenticated Fixtures.admin)) "" false).
  - reflexivity.
  - reflexivity.
Defined.

(** While the award table is empty only a superuser may award a badge:
    the first award of any store is a superuser's. *)
Theorem first_award_needs_superuser (db : Store) (B : Badge) (actor : option Actor) :
  award_table db = [] ->
  (allows_award_to db B actor = true <->
   exists u, actor = Some (Authenticated u) /\ is_superuser u = true).
Proof.
  intros Hempty.
  assert (Hnone : forall b u, is_awarded_to db b u = false).
  { intros b u. apply is_awarded_to_empty.
    unfold Award_objects_filter. rewrite Hempty. reflexivity. }
  unfold allows_award_to. split.
  - destruct actor as [[|u]|]; try discriminate.
    destruct (is_superuser u) eqn:Hs.
    + intros _. exists u. split; [reflexivity | exact Hs].
    + destruct (awarding_prerequisite B) as [p|]; [|discriminate].
      rewrite Hnone. discriminate.
  - intros [u [-> Hs]]. rewrite Hs. reflexivity.
Qed.

Lemma first_award_needs_superuser_witness :
  allows_award_to Fixtures.empty Fixtures.team_player
                  (Some (Authenticated Fixtures.admin)) = true.
Proof.
  apply (first_award_needs_superuser Fixtures.empty Fixtures.team_player
           (Some (Authenticated Fixtures.admin))).
  - reflexivity.
  - exists Fixtures.admin. split; reflexivity.
Defined.

(** ** The exceptions of [award_to] *)

(** [award_to] raises nothing but its two badge exceptions and, with two
    or more rows for the pair, [MultipleObjectsReturned]; its lookup
    never raises [DoesNotExist].  On a table without duplicate pairs an
    authorised call that does not ask for [raise_already_awarded] always
    returns an award. *)
Theorem award_to_outcomes (db : Store) (now : Z) (B : Badge) (awardee : User)
    (awarder : option Actor) (d : string) (strict : bool) :
  let r := fst (award_to db now B awardee awarder d strict) in
  ((exists a, r = Return a)
   \/ r = Raise BadgeAwardNotAllowedException
   \/ r = Raise BadgeAlreadyAwardedException
   \/ (r = Raise MultipleObjectsReturned
       /\ (1 < List.length (Award_objects_filter db awardee B))%nat))
  /\ (awards_unique db -> allows_award_to db B awarder = true ->
      strict = false -> exists a, r = Return a).
Proof.
  cbn zeta.
  pose proof (awards_unique_at_most_one db awardee B) as Hone.
  unfold award_to.
  destruct (allows_award_to db B awarder); cbn [negb fst].
  - destruct (is_awarded_to db B awardee) eqn:Hheld.
    + apply is_awarded_to_nonempty in Hheld.
      destruct strict; cbn [fst].
      * split; [auto|]. discriminate.
      * unfold Award_objects_get.
        destruct (Award_objects_filter db awardee B) as [|a [|a' rows]];
          cbn [queryset_get]; [congruence| |].
        -- split; [left|intros]; exists a; reflexivity.
        -- split.
           ++ right. right. right. split; [reflexivity|cbn; lia].
           ++ intros Hu. specialize (Hone Hu). cbn in Hone. lia.
    + destruct (Award_objects_create db now awardee B (actor_user awarder) d)
        as [a db'].
      cbn [fst]. split; [left|intros]; exists a; reflexivity.
  - split; [auto|]. discriminate.
Qed.

Lemma award_to_outcomes_witness :
  exists a,
    fst (award_to Fixtures.school 10 Fixtures.mentor Fixtures.teacher
                  (Some (Authenticated Fixtures.admin)) "" false) = Return a.
Proof.
  apply (award_to_outcomes Fixtures.school 10 Fixtures.mentor Fixtures.teacher
           (Some (Authenticated Fixtures.admin)) "" false).
  - unfold awards_unique. cbn.
    repeat constructor; cbn; intuition discriminate.
  - reflexivity.
  - reflexivity.
Defined.

(** ** Badge creation permission on a well-kept badge table *)

(** In a list with distinct keys a filter that pins the key down finds
    the one row that passes it. *)
Lemma filter_single {A K : Type} (key : A -> K) (p : A -> bool) (l : list A)
    (x : A) :
  NoDup (map key l) -> In x l -> p x = true ->
  (forall y, In y l -> p y = true -> key y = key x) ->
  filter p l = [x].
Proof.
  induction l as [|y l IH]; intros Hnd Hin Hx Hkey; [destruct Hin|].
  cbn [map] in Hnd. apply NoDup_cons_iff in Hnd. destruct Hnd as [Hfresh Hnd].
  cbn [filter]. destruct Hin as [->|Hin].
  - rewrite Hx. f_equal. apply filter_none. intros z Hz.
    apply not_true_is_false. intros Hpz. apply Hfresh.
    rewrite <- (Hkey z (or_intror Hz) Hpz). apply in_map. exact Hz.
  - destruct (p y) eqn:Hy.
    + exfalso. apply Hfresh.
      rewrite (Hkey y (or_introl eq_refl) Hy). apply in_map. exact Hin.
    + apply IH; try assumption. intros z Hz. apply Hkey. right. exact Hz.
Qed.


Lemma filter_unique_key {A : Type} (key : A -> string) (k : string) (l : list A) :
  NoDup (map key l) ->
  (List.length (filter (fun x => String.eqb (key x) k) l) <= 1)%nat.
Proof.
  induction l as [|x l IH]; cbn [map filter]; intros Hnd.
  - cbn. lia.
  - apply NoDup_cons_iff in Hnd. destruct Hnd as [Hfresh Hnd].
    destruct (String.eqb (key x) k) eqn:Hk.
    + apply String.eqb_eq in Hk.
      rewrite filter_none; [cbn; lia|].
      intros y Hy. apply String.eqb_neq. intros Hyk.
      apply Hfresh. rewrite Hk, <- Hyk. apply in_map. exact Hy.
    + apply IH. exact Hnd.
Qed.

(** With unique slugs [allows_add_by] raises nothing: it answers whether
    the user is authenticated and holds the badge whose slug is
    [creator]. *)
Theorem allows_add_by_answers (db : Store) (user : Actor) :
  slugs_unique db ->
  allows_add_by db user
  = Return (match user with
            | AnonymousUser => false
            | Authenticated u =>
                existsb (fun c => String.eqb (slug c) "creator"
                                  && is_awarded_to db c u)
                        (badge_table db)
            end).
Proof.
  intros Hu. unfold allows_add_by, Badge_objects_get_slug.
  destruct user as [|u]; [reflexivity|].
  pose proof (filter_unique_key slug "creator" (badge_table db) Hu) as Hone.
  assert (Hsame : forall l,
             existsb (fun c => String.eqb (slug c) "creator" && is_awarded_to db c u) l
             = existsb (fun c => is_awarded_to db c u)
                       (filter (fun c => String.eqb (slug c) "creator") l)).
  { induction l as [|c l IH]; cbn [existsb filter]; [reflexivity|].
    destruct (String.eqb (slug c) "creator"); cbn [andb orb existsb];
      rewrite IH; reflexivity. }
  rewrite Hsame.
  destruct (filter _ (badge_table db)) as [|c [|c' rows]]; cbn [queryset_get existsb].
  - reflexivity.
  - rewrite orb_false_r. reflexivity.
  - cbn in Hone. lia.
Qed.

Lemma allows_add_by_answers_witness :
  allows_add_by Fixtures.school (Authenticated Fixtures.teacher) = Return true
  /\ allows_add_by Fixtures.school (Authenticated Fixtures.pupil) = Return false.
Proof.
  assert (Hu : slugs_unique Fixtures.school).
  { unfold slugs_unique. cbn.
    repeat constructor; cbn; intuition discriminate. }
  split.
  - rewrite (allows_add_by_answers Fixtures.school _ Hu). reflexivity.
  - rewrite (allows_add_by_answers Fixtures.school _ Hu). reflexivity.
Defined.

(** Once the badge filed under [creator] has been awarded to a user,
    that user may add badges. *)
Theorem award_of_creator_allows_add (db db' : Store) (now : Z) (c : Badge)
    (u : User) (awarder : option Actor) (d : string) (strict : bool) (a : Award) :
  slugs_unique db ->
  In c (badge_table db) -> slug c = "creator" ->
  award_to db now c u awarder d strict = (Return a, db') ->
  allows_add_by db' (Authenticated u) = Return true.
Proof.
  intros Hu Hin Hslug Hawarded.
  apply award_to_success_held in Hawarded.
  destruct Hawarded as [Hheld Htable].
  unfold allows_add_by, Badge_objects_get_slug. rewrite Htable.
  rewrite (filter_single slug (fun r => String.eqb (slug r) "creator")
             (badge_table db) c Hu Hin).
  - cbn [queryset_get]. rewrite Hheld. reflexivity.
  - apply String.eqb_eq. exact Hslug.
  - intros y _ Hy. apply String.eqb_eq in Hy. congruence.
Qed.

Lemma award_of_creator_allows_add_witness :
  allows_add_by Fixtures.school (Authenticated Fixtures.pupil) = Return false
  /\ allows_add_by
       (snd (award_to Fixtures.school 10 Fixtures.creator_badge Fixtures.pupil
                      (Some (Authenticated Fixtures.admin)) "" false))
       (Authenticated Fixtures.pupil) = Return true.
Proof.
  split; [reflexivity|].
  eapply (award_of_creator_allows_add Fixtures.school _ 10 Fixtures.creator_badge
            Fixtures.pupil (Some (Authenticated Fixtures.admin)) "" false).
  - unfold slugs_unique. cbn.
    repeat constructor; cbn; intuition discriminate.
  - left. reflexivity.
  - reflexivity.
  - reflexivity.
Defined.

(** ** The slugs [slugify] makes *)

Ltac ascii_cases c :=
  let b0 := fresh "b" in let b1 := fresh "b" in let b2 := fresh "b" in
  let b3 := fresh "b" in let b4 := fresh "b" in let b5 := fresh "b" in
  let b6 := fresh "b" in let b7 := fresh "b" in
  destruct c as [b0 b1 b2 b3 b4 b5 b6 b7];
  destruct b0, b1, b2, b3, b4, b5, b6, b7.

Lemma lower_of_kept (c : ascii) :
  is_word c || is_space c || is_hyphen c = true ->
  if is_hyphen (lower c) || is_space (lower c) then True
  else is_slug_char (lower c) = true.
Proof. ascii_cases c; vm_compute; intros H; try exact I; try reflexivity; discriminate H. Qed.

Lemma is_hyphen_eq (c : ascii) : is_hyphen c = true -> c = "-"%char.
Proof. ascii_cases c; vm_compute; intros H; try reflexivity; discriminate H. Qed.

Lemma slug_char_plain (c : ascii) :
  is_slug_char c = true ->
  is_space c = false /\ lower c = c
  /\ is_word c || is_space c || is_hyphen c = true.
Proof.
  ascii_cases c; vm_compute; intros H; try discriminate H; repeat split.
Qed.

Lemma lstrip_Forall (P : ascii -> Prop) (l : list ascii) :
  Forall P l -> Forall P (lstrip l).
Proof.
  induction 1 as [|c l Hc Hl IH]; cbn [lstrip]; [constructor|].
  destruct (is_space c); [exact IH | constructor; assumption].
Qed.

Lemma strip_Forall (P : ascii -> Prop) (l : list ascii) :
  Forall P l -> Forall P (strip l).
Proof.
  intros H. unfold strip.
  apply Forall_rev, lstrip_Forall, Forall_rev, lstrip_Forall. exact H.
Qed.

Lemma hyphenate_tidy (l : list ascii) :
  Forall (fun c => if is_hyphen c || is_space c then True
                   else is_slug_char c = true) l ->
  forall b, tidy b (hyphenate b l) = true.
Proof.
  induction 1 as [|c l Hc Hl IH]; intros b; cbn [hyphenate]; [reflexivity|].
  destruct (is_hyphen c || is_space c) eqn:Hsep.
  - destruct b; [apply IH|].
    cbn [tidy]. change (is_slug_char "-") with true.
    change (is_hyphen "-") with true. cbn [andb negb]. apply IH.
  - cbn [tidy]. rewrite Hc. cbn [andb].
    apply orb_false_iff in Hsep. destruct Hsep as [Hh _].
    rewrite Hh. apply IH.
Qed.

Lemma tidy_fixed (l : list ascii) :
  forall b, tidy b l = true -> hyphenate b l = l.
Proof.
  induction l as [|c l IH]; intros b; cbn [tidy hyphenate]; [reflexivity|].
  intros H. apply andb_true_iff in H. destruct H as [Hc H].
  destruct (slug_char_plain c Hc) as [Hsp _]. rewrite Hsp, orb_false_r.
  destruct (is_hyphen c) eqn:Hh.
  - apply andb_true_iff in H. destruct H as [Hb H].
    destruct b; [discriminate Hb|].
    apply is_hyphen_eq in Hh. subst c. f_equal. apply IH. exact H.
  - f_equal. apply IH. exact H.
Qed.

Lemma tidy_slug_chars (l : list ascii) :
  forall b, tidy b l = true -> forallb is_slug_char l = true.
Proof.
  induction l as [|c l IH]; intros b; cbn [tidy forallb]; [reflexivity|].
  intros H. apply andb_true_iff in H. destruct H as [Hc H]. rewrite Hc.
  destruct (is_hyphen c).
  - apply andb_true_iff in H. destruct H as [_ H]. exact (IH _ H).
  - exact (IH _ H).
Qed.

Lemma tidy_no_hyphen_pair (l1 l2 : list ascii) :
  forall b, tidy b (l1 ++ "-"%char :: "-"%char :: l2) = false.
Proof.
  induction l1 as [|c l1 IH]; intros b.
  - cbn [app tidy]. change (is_hyphen "-") with true.
    cbn [negb andb]. destruct b; cbn; reflexivity.
  - cbn [app tidy]. destruct (is_slug_char c); [|reflexivity].
    cbn [andb]. destruct (is_hyphen c).
    + rewrite IH. apply andb_false_r.
    + apply IH.
Qed.

Lemma list_ascii_of_string_app (s1 s2 : string) :
  list_ascii_of_string (s1 ++ s2)
  = (list_ascii_of_string s1 ++ list_ascii_of_string s2)%list.
Proof.
  induction s1 as [|c s1 IH]; cbn; [reflexivity|]. rewrite IH. reflexivity.
Qed.

(** What [slugify] returns as a list of characters is tidy. *)
Lemma slugify_tidy (to_ascii : string -> string) (value : string) :
  tidy false (list_ascii_of_string (slugify to_ascii value)) = true.
Proof.
  unfold slugify. rewrite list_ascii_of_string_of_list_ascii.
  apply hyphenate_tidy.
  apply Forall_map. apply strip_Forall.
  apply Forall_forall. intros c Hc. apply filter_In in Hc.
  apply lower_of_kept. tauto.
Qed.

(** Whatever the title, the slug [slugify] derives consists of
    lower-case letters, digits, underscores and hyphens only, and no two
    hyphens follow each other in it. *)
Theorem slugify_shape (to_ascii : string -> string) (value : string) :
  forallb is_slug_char (list_ascii_of_string (slugify to_ascii value)) = true
  /\ forall s1 s2, slugify to_ascii value <> (s1 ++ "--" ++ s2)%string.
Proof.
  pose proof (slugify_tidy to_ascii value) as Ht.
  split; [exact (tidy_slug_chars _ _ Ht)|].
  intros s1 s2 Heq. rewrite Heq in Ht.
  rewrite !list_ascii_of_string_app in Ht. cbn [list_ascii_of_string app] in Ht.
  rewrite tidy_no_hyphen_pair in Ht. discriminate Ht.
Qed.

Lemma lstrip_no_space (l : list ascii) :
  forallb (fun c => negb (is_space c)) l = true -> lstrip l = l.
Proof.
  destruct l as [|c l]; cbn [forallb lstrip]; [reflexivity|].
  intros H. apply andb_true_iff in H. destruct H as [Hc _].
  destruct (is_space c); [discriminate Hc | reflexivity].
Qed.

Lemma slug_chars_fixed (l : list ascii) :
  forallb is_slug_char l = true ->
  filter (fun c => is_word c || is_space c || is_hyphen c) l = l
  /\ strip l = l /\ map lower l = l.
Proof.
  intros H. rewrite forallb_forall in H.
  assert (Hns : forall l', (forall c, In c l' -> In c l) ->
                           forallb (fun c => negb (is_space c)) l' = true).
  { intros l' Hsub. apply forallb_forall. intros c Hc.
    destruct (slug_char_plain c (H c (Hsub c Hc))) as [-> _]. reflexivity. }
  split; [|split].
  - apply forallb_filter_id. apply forallb_forall. intros c Hc.
    apply (slug_char_plain c (H c Hc)).
  - unfold strip. rewrite (lstrip_no_space l) by (apply Hns; auto).
    rewrite lstrip_no_space; [apply rev_involutive|].
    apply Hns. intros c Hc. apply in_rev. exact Hc.
  - rewrite <- (map_id l) at 2. apply map_ext_in. intros c Hc.
    apply (slug_char_plain c (H c Hc)).
Qed.

(** [slugify] of a slug it made is that slug again, when the library's
    normalisation leaves the slug, which is ASCII, as it is. *)
Theorem slugify_idempotent (to_ascii : string -> string) (value : string) :
  to_ascii (slugify to_ascii value) = slugify to_ascii value ->
  slugify to_ascii (slugify to_ascii value) = slugify to_ascii value.
Proof.
  intros Hfix.
  pose proof (slugify_tidy to_ascii value) as Ht.
  pose proof (slug_chars_fixed _ (tidy_slug_chars _ _ Ht)) as [Hf [Hs Hl]].
  unfold slugify at 1. rewrite Hfix, Hf, Hs, Hl.
  rewrite (tidy_fixed _ _ Ht). apply string_of_list_ascii_of_string.
Qed.

Lemma slugify_idempotent_witness :
  slugify ascii_only (slugify ascii_only "  Team   Player!! ")
  = slugify ascii_only "  Team   Player!! ".
Proof.
  apply slugify_idempotent. reflexivity.
Defined.

Lemma forallb_false_witness {A : Type} (p : A -> bool) (l : list A) :
  forallb p l = false -> exists x, In x l /\ p x = false.
Proof.
  induction l as [|x l IH]; cbn [forallb]; [discriminate|].
  destruct (p x) eqn:Hx; cbn [andb].
  - intros H. destruct (IH H) as [y [Hy Hpy]]. exists y. split; [right|]; assumption.
  - intros _. exists x. split; [left; reflexivity | exact Hx].
Qed.






(** ** [Badge.save] and the badge table *)

Lemma existsb_false {A : Type} (p : A -> bool) (l : list A) :
  existsb p l = false <-> forall x, In x l -> p x = false.
Proof.
  induction l as [|x l IH]; cbn [existsb In].
  - split; [intros _ y [] | reflexivity].
  - rewrite orb_false_iff, IH. split.
    + intros [Hx Hl] y [<-|Hy]; auto.
    + intros H. split; auto.
Qed.

Section ModelSave.

Variable b : Badge.

Let same_key : Badge -> bool := fun r => badge_pk r =? badge_pk b.
Let put : Badge -> Badge := fun r => if same_key r then b else r.

Lemma put_unkeyed (l : list Badge) :
  existsb same_key l = false -> map put l = l.
Proof.
  intros H. rewrite existsb_false in H.
  rewrite <- (map_id l) at 2. apply map_ext_in. intros r Hr.
  unfold put. rewrite (H r Hr). reflexivity.
Qed.

Lemma unique_key_tail (r : Badge) (l : list Badge) :
  NoDup (map badge_pk (r :: l)) -> same_key r = true ->
  existsb same_key l = false.
Proof.
  intros Hnd Hr. cbn [map] in Hnd. apply NoDup_cons_iff in Hnd.
  destruct Hnd as [Hfresh _].
  apply existsb_false. intros x Hx.
  destruct (same_key x) eqn:Hsx; [exfalso|reflexivity].
  unfold same_key in Hr, Hsx. apply Z.eqb_eq in Hr, Hsx.
  apply Hfresh. rewrite Hr, <- Hsx. apply in_map. exact Hx.
Qed.

(** Replacing the row of [b]'s key keeps a column free of repetitions
    when no other row has [b]'s value in it. *)
Lemma put_keeps_NoDup {K : Type} (f : Badge -> K) (l : list Badge) :
  NoDup (map badge_pk l) -> NoDup (map f l) ->
  (forall r, In r l -> same_key r = false -> f r <> f b) ->
  NoDup (map f (map put l)).
Proof.
  induction l as [|r l IH]; intros Hk Hf Hother; [constructor|].
  cbn [map]. unfold put at 1.
  destruct (same_key r) eqn:Hr.
  - rewrite (put_unkeyed l) by (eapply unique_key_tail; eassumption).
    pose proof (unique_key_tail r l Hk Hr) as Htail.
    rewrite existsb_false in Htail.
    cbn [map] in Hf. apply NoDup_cons_iff in Hf. destruct Hf as [_ Hf].
    constructor; [|exact Hf].
    intros Hin. apply in_map_iff in Hin. destruct Hin as [x [Hx Hin]].
    apply (Hother x (or_intror Hin) (Htail x Hin)). exact Hx.
  - cbn [map] in Hk, Hf.
    apply NoDup_cons_iff in Hk. destruct Hk as [_ Hk].
    apply NoDup_cons_iff in Hf. destruct Hf as [Hfresh Hf].
    constructor.
    + intros Hin. apply in_map_iff in Hin. destruct Hin as [y [Hy Hin]].
      apply in_map_iff in Hin. destruct Hin as [x [Hx Hin]].
      subst y. unfold put in Hy. destruct (same_key x).
      * apply (Hother r (or_introl eq_refl) Hr). symmetry. exact Hy.
      * apply Hfresh. rewrite <- Hy. apply in_map. exact Hin.
    + apply IH; [exact Hk | exact Hf |].
      intros x Hx. apply Hother. right. exact Hx.
Qed.

Lemma add_keeps_NoDup {K : Type} (f : Badge -> K) (l : list Badge) :
  NoDup (map f l) ->
  (forall r, In r l -> f r <> f b) ->
  NoDup (map f (l ++ [b])).
Proof.
  intros Hf Hother. rewrite map_app. apply NoDup_app.
  - exact Hf.
  - cbn. constructor; [intros []|constructor].
  - intros k Hin [<-|[]].
    apply in_map_iff in Hin. destruct Hin as [x [Hx Hin]].
    exact (Hother x Hin Hx).
Qed.

(** The row [Model_save] leaves behind, and what an accepted [b] did not
    clash with. *)
Lemma Model_save_accepts (db db' : Store) :
  Model_save db b = (Return tt, db') ->
  (forall r, In r (badge_table db) -> same_key r = false ->
             title r <> title b /\ slug r <> slug b)
  /\ badge_table db' = (if existsb same_key (badge_table db)
                        then map put (badge_table db)
                        else (badge_table db ++ [b])%list)
  /\ award_table db' = award_table db
  /\ award_seq db' = award_seq db.
Proof.
  unfold Model_save. fold same_key.
  destruct (existsb _ (badge_table db)) eqn:Hclash; [discriminate|].
  intros H. injection H as <-. cbn [badge_table award_table award_seq].
  split; [|repeat split].
  rewrite existsb_false in Hclash.
  intros r Hr Hkey. specialize (Hclash r Hr). cbn beta in Hclash.
  unfold same_key in Hkey. rewrite Hkey in Hclash. cbn [negb andb] in Hclash.
  apply orb_false_iff in Hclash. destruct Hclash as [Ht Hs].
  split; apply String.eqb_neq; assumption.
Qed.

Lemma get_after_put (l : list Badge) :
  NoDup (map badge_pk l) ->
  (forall r, In r l -> same_key r = false -> slug r <> slug b) ->
  filter (fun r => String.eqb (slug r) (slug b)) (map put l)
  = if existsb same_key l then [b] else [].
Proof.
  induction l as [|r l IH]; intros Hk Hother; [reflexivity|].
  cbn [map existsb filter].
  destruct (same_key r) eqn:Hr.
  - assert (Hput : put r = b) by (unfold put; rewrite Hr; reflexivity).
    rewrite Hput, String.eqb_refl. cbn [orb].
    pose proof (unique_key_tail r l Hk Hr) as Htail.
    cbn [map] in Hk. apply NoDup_cons_iff in Hk. destruct Hk as [_ Hk].
    rewrite IH; [rewrite Htail; reflexivity | exact Hk |].
    intros x Hx. apply Hother. right. exact Hx.
  - assert (Hput : put r = r) by (unfold put; rewrite Hr; reflexivity).
    rewrite Hput.
    pose proof (Hother r (or_introl eq_refl) Hr) as Hs.
    apply String.eqb_neq in Hs. rewrite Hs. cbn [orb].
    cbn [map] in Hk. apply NoDup_cons_iff in Hk. destruct Hk as [_ Hk].
    apply IH; [exact Hk|]. intros x Hx. apply Hother. right. exact Hx.
Qed.



End ModelSave.

(** A save the store accepts keeps the primary keys, the slugs and the
    titles of the badge table free of repetitions, and does not touch the
    awards. *)
Theorem save_keeps_unique (to_ascii : string -> string) (db db' : Store)
    (self : Badge) :
  badge_keys_unique db -> slugs_unique db -> titles_unique db ->
  snd (save to_ascii db self) = (Return tt, db') ->
  badge_keys_unique db' /\ slugs_unique db' /\ titles_unique db'
  /\ award_table db' = award_table db.
Proof.
  unfold save. cbn [snd].
  set (b := if String.eqb (slug self) "" then _ else self).
  intros Hk Hs Ht Hsaved.
  destruct (Model_save_accepts b db db' Hsaved) as [Hother [Htable [Haw _]]].
  unfold badge_keys_unique, slugs_unique, titles_unique. rewrite Htable.
  split; [|split; [|split; [|exact Haw]]];
    destruct (existsb _ (badge_table db)) eqn:He;
    try (apply put_keeps_NoDup; try assumption;
         intros r Hr Hkey; try (apply Z.eqb_neq; exact Hkey);
         apply (Hother r Hr Hkey));
    rewrite existsb_false in He;
    apply add_keeps_NoDup; try assumption;
    intros r Hr; try (apply Z.eqb_neq; exact (He r Hr));
    apply (Hother r Hr (He r Hr)).
Qed.

Lemma save_keeps_unique_witness :
  slugs_unique (snd (snd (save ascii_only Fixtures.school Fixtures.team_player))).
Proof.
  destruct (save_keeps_unique ascii_only Fixtures.school
              (snd (snd (save ascii_only Fixtures.school Fixtures.team_player)))
              Fixtures.team_player) as [_ [H _]].
  - unfold badge_keys_unique. cbn. repeat constructor; cbn; intuition discriminate.
  - unfold slugs_unique. cbn. repeat constructor; cbn; intuition discriminate.
  - unfold titles_unique. cbn. repeat constructor; cbn; intuition discriminate.
  - reflexivity.
  - exact H.
Defined.

(** After a save the store accepts, looking the badge up by its slug
    returns the badge as it was saved, when primary keys are unique. *)
Theorem save_then_get (to_ascii : string -> string) (db db' : Store) (self : Badge) :
  badge_keys_unique db ->
  snd (save to_ascii db self) = (Return tt, db') ->
  Badge_objects_get_slug db' (slug (fst (save to_ascii db self)))
  = Return (fst (save to_ascii db self)).
Proof.
  unfold save. cbn [fst snd].
  set (b := if String.eqb (slug self) "" then _ else self).
  intros Hk Hsaved.
  destruct (Model_save_accepts b db db' Hsaved) as [Hother [Htable _]].
  unfold Badge_objects_get_slug. rewrite Htable.
  destruct (existsb _ (badge_table db)) eqn:He.
  - rewrite get_after_put; [rewrite He; reflexivity | exact Hk |].
    intros r Hr Hkey. apply (Hother r Hr Hkey).
  - rewrite existsb_false in He.
    rewrite filter_app, filter_none.
    + cbn [filter app]. rewrite String.eqb_refl. reflexivity.
    + intros r Hr. apply String.eqb_neq. apply (Hother r Hr (He r Hr)).
Qed.

Lemma save_then_get_witness :
  Badge_objects_get_slug
    (snd (snd (save ascii_only Fixtures.school Fixtures.team_player)))
    "team-player"
  = Return (mkBadge 3 "Team Player" "team-player" (Some Fixtures.mentor)).
Proof.
  apply (save_then_get ascii_only Fixtures.school
           (snd (snd (save ascii_only Fixtures.school Fixtures.team_player)))
           Fixtures.team_player).
  - unfold badge_keys_unique. cbn. repeat constructor; cbn; intuition discriminate.
  - reflexivity.
Defined.



(** A badge without a slug whose title derives the slug of another
    badge's row is refused: [save] raises [IntegrityError], the store is
    left as it was, and the badge object keeps the derived slug. *)
Theorem save_derived_slug_clash (to_ascii : string -> string) (db : Store)
    (self other : Badge) :
  slug self = "" ->
  In other (badge_table db) ->
  badge_pk other <> badge_pk self ->
  slug other = slugify to_ascii (title self) ->
  save to_ascii db self
  = (set_slug self (slugify to_ascii (title self)), (Raise IntegrityError, db)).
Proof.
  intros Hempty Hin Hpk Hslug. unfold save. rewrite Hempty. cbn [String.eqb].
  f_equal. unfold Model_save.
  replace (existsb _ (badge_table db)) with true; [reflexivity|].
  symmetry. apply existsb_exists. exists other. split; [exact Hin|].
  cbn [badge_pk slug title set_slug].
  apply Z.eqb_neq in Hpk. rewrite Hpk, Hslug, String.eqb_refl.
  cbn [negb andb]. apply orb_true_r.
Qed.

Lemma save_derived_slug_clash_witness :
  save ascii_only Fixtures.school (mkBadge 9 "Mentor!" "" None)
  = (mkBadge 9 "Mentor!" "mentor" None, (Raise IntegrityError, Fixtures.school)).
Proof.
  apply (save_derived_slug_clash ascii_only Fixtures.school
           (mkBadge 9 "Mentor!" "" None) Fixtures.mentor).
  - reflexivity.
  - right. left. reflexivity.
  - discriminate.
  - reflexivity.
Defined.

(** ** Upload paths *)

(** The image of an award cannot be filed for a user whose name has
    fewer than two characters: the path builder raises [IndexError].
    For longer names the path is filed under
    [award/<first>/<second>/<name>]. *)
Theorem award_upload_needs_two_chars (field_fn ext : string) (user : User)
    (badge : Badge) (now entropy : Z) :
  ((String.length (username user) < 2)%nat ->
   Award_upload_to field_fn ext user badge now entropy = Raise IndexError)
  /\ ((2 <= String.length (username user))%nat ->
      exists c0 c1 rest,
        username user = String c0 (String c1 rest)
        /\ Award_upload_to field_fn ext user badge now entropy
           = mk_upload_to field_fn ext
               ("award/" ++ String c0 "" ++ "/" ++ String c1 "" ++ "/"
                  ++ username user, slug badge)%string now entropy).
Proof.
  unfold Award_upload_to, Award_get_upload_meta, char_at.
  destruct (username user) as [|c0 [|c1 rest]]; cbn [String.length String.get bind].
  - split; [reflexivity | lia].
  - split; [reflexivity | lia].
  - split; [lia|]. intros _. exists c0, c1, rest. split; reflexivity.
Qed.

Lemma award_upload_needs_two_chars_witness :
  Award_upload_to "image" "png" (mkUser 7 "x" false) Fixtures.mentor 1400000000 5
  = Raise IndexError
  /\ exists c0 c1 rest,
       username Fixtures.pupil = String c0 (String c1 rest)
       /\ Award_upload_to "image" "png" Fixtures.pupil Fixtures.mentor 1400000000 5
          = mk_upload_to "image" "png"
              ("award/" ++ String c0 "" ++ "/" ++ String c1 "" ++ "/"
                 ++ username Fixtures.pupil, slug Fixtures.mentor)%string
              1400000000 5.
Proof.
  split.
  - apply (award_upload_needs_two_chars "image" "png" (mkUser 7 "x" false)
             Fixtures.mentor 1400000000 5).
    cbn. lia.
  - apply (award_upload_needs_two_chars "image" "png" Fixtures.pupil
             Fixtures.mentor 1400000000 5).
    cbn. lia.
Defined.

Lemma hex_digit_is_hex (x : Z) : 0 <= x < 16 -> is_hex (MD5.hex_digit x) = true.
Proof.
  intros Hx.
  assert (Hall : forallb (fun i => is_hex (MD5.hex_digit (Z.of_nat i))) (seq 0 16)
                 = true) by (vm_compute; reflexivity).
  rewrite forallb_forall in Hall.
  specialize (Hall (Z.to_nat x)). rewrite Z2Nat.id in Hall by lia.
  apply Hall. apply in_seq. lia.
Qed.

Lemma hex_all_hex (bytes : list Z) :
  Forall (fun b => 0 <= b < 256) bytes -> all_chars is_hex (MD5.hex bytes) = true.
Proof.
  unfold all_chars.
  induction 1 as [|b bytes Hb Hbytes IH]; [reflexivity|].
  cbn [MD5.hex list_ascii_of_string forallb].
  rewrite !hex_digit_is_hex, IH; [reflexivity| |].
  - apply Z.mod_pos_bound. lia.
  - split; [apply Z.div_pos; lia | apply Z.div_lt_upper_bound; lia].
Qed.

Lemma le_bytes_range (n : nat) (x : Z) :
  Forall (fun b => 0 <= b < 256) (MD5.le_bytes n x).
Proof.
  unfold MD5.le_bytes. apply Forall_map. apply Forall_forall.
  intros i _. apply Z.mod_pos_bound. lia.
Qed.

(** The digest is written in lower-case hexadecimal digits. *)
Lemma hexdigest_is_hex (msg : list Z) :
  all_chars is_hex (MD5.hexdigest msg) = true.
Proof.
  unfold MD5.hexdigest, MD5.digest.
  destruct (MD5.blocks _ MD5.init _) as [[[a b] c] d].
  apply hex_all_hex.
  do 3 (apply Forall_app; split; [apply le_bytes_range|]).
  apply le_bytes_range.
Qed.

Lemma substring_prefix (s t : string) :
  substring 0 (String.length s) (s ++ t) = s.
Proof.
  induction s as [|c s IH]; cbn.
  - destruct t; reflexivity.
  - f_equal. exact IH.
Qed.

(** Uploads fan out over at most 16 x 16 directories below [base]: the
    two directory names of a path are single hexadecimal digits, and the
    file name starts with the 32 hexadecimal digits of the digest. *)
Theorem upload_fan_out (field_fn ext base slug : string) (now entropy : Z) :
  exists h1 h2 file,
    is_hex h1 = true /\ is_hex h2 = true
    /\ mk_upload_to field_fn ext (base, slug) now entropy
       = Return (base ++ "/" ++ String h1 "" ++ "/" ++ String h2 "" ++ "/" ++ file)%string
    /\ substring 0 32 file = MD5.hexdigest (utf8_encode slug)
    /\ all_chars is_hex (substring 0 32 file) = true.
Proof.
  destruct (hexdigest_chars (utf8_encode slug)) as [h1 [h2 [rest [Hshape Hlen]]]].
  pose proof (hexdigest_is_hex (utf8_encode slug)) as Hhex.
  pose proof Hhex as Hfirst. rewrite Hshape in Hfirst. unfold all_chars in Hfirst.
  cbn [list_ascii_of_string forallb] in Hfirst.
  apply andb_true_iff in Hfirst. destruct Hfirst as [H1 Hfirst].
  apply andb_true_iff in Hfirst. destruct Hfirst as [H2 _].
  exists h1, h2. eexists.
  split; [exact H1|]. split; [exact H2|].
  unfold mk_upload_to, char_at. rewrite Hshape. cbn [String.get bind].
  unfold MK_UPLOAD_TMPL. rewrite <- Hshape.
  split; [reflexivity|].
  rewrite <- Hlen, substring_prefix. split; [reflexivity | exact Hhex].
Qed.

Lemma string_app_inv_head (s a b : string) :
  (s ++ a = s ++ b)%string -> a = b.
Proof.
  induction s as [|c s IH]; cbn; intros H; [exact H|].
  injection H as H. exact (IH H).
Qed.

Lemma string_app_same_length (a b s t : string) :
  String.length a = String.length b ->
  (a ++ s = b ++ t)%string -> a = b /\ s = t.
Proof.
  revert b. induction a as [|c a IH]; intros [|c' b]; cbn; intros Hlen H;
    try discriminate Hlen.
  - split; [reflexivity | exact H].
  - injection Hlen as Hlen. injection H as -> H.
    destruct (IH b Hlen H) as [-> ->]. split; reflexivity.
Qed.

Lemma digit_char_is_digit (d : Z) :
  0 <= d < 10 -> is_digit (digit_char d) = true.
Proof.
  intros Hd.
  assert (Hall : forallb (fun i => is_digit (digit_char (Z.of_nat i))) (seq 0 10)
                 = true) by (vm_compute; reflexivity).
  rewrite forallb_forall in Hall.
  specialize (Hall (Z.to_nat d)). rewrite Z2Nat.id in Hall by lia.
  apply Hall. apply in_seq. lia.
Qed.

Lemma digits_are_digits (fuel : nat) :
  forall n acc, all_chars is_digit acc = true ->
                all_chars is_digit (digits fuel n acc) = true.
Proof.
  induction fuel as [|fuel IH]; intros n acc Hacc; cbn [digits]; [exact Hacc|].
  assert (Hacc' : all_chars is_digit (String (digit_char (n mod 10)) acc) = true).
  { unfold all_chars in *. cbn [list_ascii_of_string forallb].
    rewrite digit_char_is_digit by (apply Z.mod_pos_bound; lia). exact Hacc. }
  destruct (n <? 10); [exact Hacc' | apply IH; exact Hacc'].
Qed.

(** A run of digits ends where the first underscore stands. *)
Lemma digits_then_underscore (d1 d2 t1 t2 : string) :
  all_chars is_digit d1 = true -> all_chars is_digit d2 = true ->
  (d1 ++ String "_" t1 = d2 ++ String "_" t2)%string ->
  d1 = d2 /\ t1 = t2.
Proof.
  unfold all_chars.
  revert d2. induction d1 as [|c d1 IH]; intros [|c' d2];
    cbn [append list_ascii_of_string forallb]; intros H1 H2 H.
  - injection H as ->. split; reflexivity.
  - injection H as <- _. discriminate H2.
  - injection H as -> _. discriminate H1.
  - injection H as -> H.
    apply andb_true_iff in H1, H2.
    destruct (IH d2 (proj2 H1) (proj2 H2) H) as [-> ->]. split; reflexivity.
Qed.

Lemma fmt_04d_value (r : Z) :
  0 <= r <= 1000 -> decimal_value 0 (fmt_04d r) = r.
Proof.
  intros Hr.
  assert (Hall : forallb (fun i => decimal_value 0 (fmt_04d (Z.of_nat i)) =? Z.of_nat i)
                         (seq 0 1001) = true) by (vm_compute; reflexivity).
  rewrite forallb_forall in Hall.
  specialize (Hall (Z.to_nat r)). rewrite Z2Nat.id in Hall by lia.
  apply Z.eqb_eq. apply Hall. apply in_seq. lia.
Qed.

(** Two uploads for the same instance and field get the same path
    exactly when they fall into the same second and draw the same random
    number: the second and the number can be read back from the path. *)
Theorem upload_paths_collide_iff (field_fn ext base slug : string)
    (now1 now2 entropy1 entropy2 : Z) :
  0 <= now1 -> 0 <= now2 ->
  (mk_upload_to field_fn ext (base, slug) now1 entropy1
   = mk_upload_to field_fn ext (base, slug) now2 entropy2
   <-> now1 = now2 /\ randint 0 1000 entropy1 = randint 0 1000 entropy2).
Proof.
  intros Hn1 Hn2.
  destruct (hexdigest_chars (utf8_encode slug)) as [h1 [h2 [rest [Hshape _]]]].
  unfold mk_upload_to, char_at. rewrite Hshape. cbn [String.get bind].
  rewrite <- Hshape. unfold MK_UPLOAD_TMPL.
  pose proof (randint_range 0 1000 entropy1 ltac:(lia)) as Hr1.
  pose proof (randint_range 0 1000 entropy2 ltac:(lia)) as Hr2.
  set (r1 := randint 0 1000 entropy1) in *.
  set (r2 := randint 0 1000 entropy2) in *.
  split.
  - intros H. injection H as H.
    apply (string_app_inv_head base) in H.
    apply (string_app_inv_head "/") in H.
    apply (string_app_inv_head (String h1 "")) in H.
    apply (string_app_inv_head "/") in H.
    apply (string_app_inv_head (String h2 "")) in H.
    apply (string_app_inv_head "/") in H.
    apply (string_app_inv_head (MD5.hexdigest (utf8_encode slug))) in H.
    apply (string_app_inv_head "_") in H.
    apply (string_app_inv_head field_fn) in H.
    apply (string_app_inv_head "_") in H.
    assert (Hd : forall n, 0 <= n -> all_chars is_digit (str_of_int n) = true).
    { intros n Hn. unfold str_of_int.
      destruct (n <? 0) eqn:Hneg; [apply Z.ltb_lt in Hneg; lia|].
      apply digits_are_digits. reflexivity. }
    apply digits_then_underscore in H; [|apply Hd; assumption..].
    destruct H as [Hnow H].
    apply string_app_same_length in H;
      [|rewrite !fmt_04d_width by assumption; reflexivity].
    destruct H as [Hfmt _].
    split.
    + rewrite <- (str_of_int_value now1 Hn1), <- (str_of_int_value now2 Hn2).
      rewrite Hnow. reflexivity.
    + rewrite <- (fmt_04d_value r1 Hr1), <- (fmt_04d_value r2 Hr2).
      rewrite Hfmt. reflexivity.
  - intros [-> ->]. reflexivity.
Qed.

Lemma upload_paths_collide_iff_witness :
  mk_upload_to "image" "png" ("badge", "creator") 1400000000 7
  <> mk_upload_to "image" "png" ("badge", "creator") 1400000000 8.
Proof.
  intros H.
  apply (upload_paths_collide_iff "image" "png" "badge" "creator"
           1400000000 1400000000 7 8) in H; [|lia|lia].
  destruct H as [_ H]. discriminate H.
Defined.

(** ** Cleaning the image of a badge *)




(** A picture that decodes with height zero never gets scaled:
    [scale_image] raises [ZeroDivisionError] ([OverflowError] when the
    width is beyond the range of a float), and [Badge.clean] lets that
    exception through, it does not answer with its [ValidationError]. *)
Theorem zero_height_raises (src_width : Z) (m : string) (img_max_size : Z * Z) :
  exists e,
    (e = ZeroDivisionError \/ e = OverflowError)
    /\ scale_image (Some (mkImage (src_width, 0) m)) img_max_size = Raise e
    /\ clean (Some (Some (mkImage (src_width, 0) m))) = Failed e
    /\ (forall fw, PyFloat.of_int src_width = Return fw -> e = ZeroDivisionError).
Proof.
  assert (H : forall dw dh,
            scale_image_box src_width 0 dw dh
            = match PyFloat.of_int src_width with
              | Return _ => Raise ZeroDivisionError
              | Raise e => Raise e
              end).
  { intros dw dh. unfold scale_image_box.
    destruct (PyFloat.of_int src_width); reflexivity. }
  assert (Hconv : forall e, PyFloat.of_int src_width = Raise e -> e = OverflowError).
  { unfold PyFloat.of_int. intros e.
    destruct (binary_normalize _ _ _ _ _); intros He;
      try discriminate He. injection He as <-. reflexivity. }
  unfold clean, scale_image. cbn [size]. unfold IMG_MAX_SIZE.
  destruct img_max_size as [dw dh]. rewrite !H.
  destruct (PyFloat.of_int src_width) as [fw|e] eqn:Hw.
  - exists ZeroDivisionError. repeat split; auto.
  - rewrite (Hconv e eq_refl). exists OverflowError.
    repeat split; auto. discriminate.
Qed.

(** ** Deleting a badge *)

Section Collector.

Variable table : list Badge.

Let step (pks : list Z) : list Z :=
  (pks ++ map badge_pk (filter (depends_on pks) table))%list.

Let closed (pks : list Z) : Prop :=
  forall r, In r table -> depends_on pks r = true ->
            key_in (badge_pk r) pks = true.

Let reached (pks : list Z) : nat :=
  List.length (filter (fun r => key_in (badge_pk r) pks) table).

Lemma key_in_spec (k : Z) (pks : list Z) : key_in k pks = true <-> In k pks.
Proof.
  unfold key_in. rewrite existsb_exists. split.
  - intros [x [Hx Hk]]. apply Z.eqb_eq in Hk. subst x. exact Hx.
  - intros H. exists k. split; [exact H | apply Z.eqb_refl].
Qed.

Lemma depends_on_ext (pks pks' : list Z) (r : Badge) :
  (forall k, key_in k pks = key_in k pks') ->
  depends_on pks r = depends_on pks' r.
Proof.
  intros H. unfold depends_on.
  destruct (awarding_prerequisite r); [apply H | reflexivity].
Qed.

Lemma key_in_step (k : Z) (pks : list Z) :
  key_in k (step pks) = true <->
  key_in k pks = true
  \/ exists r, In r table /\ depends_on pks r = true /\ badge_pk r = k.
Proof.
  unfold step. rewrite !key_in_spec, in_app_iff, in_map_iff.
  split; intros [H|H]; auto; right.
  - destruct H as [r [Hk Hr]]. apply filter_In in Hr. exists r. tauto.
  - destruct H as [r [Hr [Hd Hk]]]. exists r. rewrite filter_In. tauto.
Qed.

Lemma closed_step_same (pks : list Z) :
  closed pks -> forall k, key_in k (step pks) = key_in k pks.
Proof.
  intros Hc k. apply eq_true_iff_eq. rewrite key_in_step. split; [|auto].
  intros [H|[r [Hr [Hd <-]]]]; [exact H | exact (Hc r Hr Hd)].
Qed.

Lemma closed_ext (pks pks' : list Z) :
  (forall k, key_in k pks' = key_in k pks) -> closed pks -> closed pks'.
Proof.
  intros Hsame Hc r Hr Hd. rewrite Hsame.
  apply Hc; [exact Hr|]. rewrite <- Hd. symmetry.
  apply depends_on_ext. exact Hsame.
Qed.

Lemma closed_collect (n : nat) :
  forall pks, closed pks ->
    closed (collect n table pks)
    /\ forall k, key_in k (collect n table pks) = key_in k pks.
Proof.
  induction n as [|n IH]; intros pks Hc; cbn [collect]; [split; auto|].
  fold (step pks).
  pose proof (closed_step_same pks Hc) as Hsame.
  destruct (IH (step pks) (closed_ext pks (step pks) Hsame Hc)) as [Hc' Hk].
  split; [exact Hc'|]. intros k. rewrite Hk. apply Hsame.
Qed.

Lemma collect_keeps (n : nat) :
  forall pks k, key_in k pks = true -> key_in k (collect n table pks) = true.
Proof.
  induction n as [|n IH]; intros pks k Hk; cbn [collect]; [exact Hk|].
  apply IH. fold (step pks). apply key_in_step. left. exact Hk.
Qed.

Lemma filter_length_grows {A : Type} (p q : A -> bool) (l : list A) :
  (forall x, In x l -> p x = true -> q x = true) ->
  (List.length (filter p l) <= List.length (filter q l))%nat
  /\ ((exists x, In x l /\ p x = false /\ q x = true) ->
      (List.length (filter p l) < List.length (filter q l))%nat).
Proof.
  induction l as [|x l IH]; intros Hpq.
  - split; [cbn; lia|]. intros [x [[] _]].
  - assert (Hl : forall y, In y l -> p y = true -> q y = true)
      by (intros y Hy; apply Hpq; right; exact Hy).
    destruct (IH Hl) as [Hle Hlt].
    pose proof (Hpq x (or_introl eq_refl)) as Hx.
    cbn [filter].
    destruct (p x) eqn:Hp; [rewrite (Hx eq_refl)|destruct (q x) eqn:Hq];
      cbn [List.length].
    + split; [lia|]. intros [y [[<-|Hy] [Hpy Hqy]]]; [congruence|].
      assert (List.length (filter p l) < List.length (filter q l))%nat
        by (apply Hlt; exists y; auto).
      lia.
    + split; lia.
    + split; [lia|]. intros [y [[<-|Hy] [Hpy Hqy]]]; [congruence|].
      apply Hlt. exists y. auto.
Qed.

Lemma filter_full {A : Type} (p : A -> bool) (l : list A) :
  (List.length l <= List.length (filter p l))%nat ->
  forall x, In x l -> p x = true.
Proof.
  induction l as [|y l IH]; intros Hlen x Hx; [destruct Hx|].
  cbn [filter List.length] in Hlen.
  pose proof (filter_length_le p l) as Hle.
  destruct (p y) eqn:Hy; cbn [List.length] in Hlen; [|lia].
  destruct Hx as [<-|Hx]; [exact Hy|].
  apply IH; [lia | exact Hx].
Qed.

Lemma closed_dec (pks : list Z) :
  closed pks
  \/ exists r, In r table /\ depends_on pks r = true
               /\ key_in (badge_pk r) pks = false.
Proof.
  destruct (forallb (fun r => implb (depends_on pks r) (key_in (badge_pk r) pks))
                    table) eqn:Hall.
  - left. rewrite forallb_forall in Hall. intros r Hr Hd.
    specialize (Hall r Hr). rewrite Hd in Hall. exact Hall.
  - right. apply forallb_false_witness in Hall.
    destruct Hall as [r [Hr Himp]]. exists r. split; [exact Hr|].
    destruct (depends_on pks r), (key_in (badge_pk r) pks);
      try discriminate Himp. split; reflexivity.
Qed.

(** As many rounds as the table has rows leave nothing to collect. *)
Lemma collect_closes (n : nat) :
  forall pks, (List.length table <= reached pks + n)%nat ->
              closed (collect n table pks).
Proof.
  induction n as [|n IH]; intros pks Hlen; cbn [collect].
  - intros r Hr _. unfold reached in Hlen.
    apply (filter_full (fun r => key_in (badge_pk r) pks) table); [lia | exact Hr].
  - fold (step pks).
    destruct (closed_dec pks) as [Hc | [r [Hr [Hd Hout]]]].
    + apply closed_collect. apply (closed_ext pks); [|exact Hc].
      apply closed_step_same. exact Hc.
    + apply IH.
      assert (reached pks < reached (step pks))%nat; [|lia].
      unfold reached. apply filter_length_grows.
      * intros x _ Hx. apply key_in_step. left. exact Hx.
      * exists r. split; [exact Hr|]. split; [exact Hout|].
        apply key_in_step. right. exists r. auto.
Qed.

End Collector.

Lemma deleted_keys_closed (db : Store) (self : Badge) :
  key_in (badge_pk self) (deleted_keys db self) = true
  /\ forall r, In r (badge_table db) ->
       depends_on (deleted_keys db self) r = true ->
       key_in (badge_pk r) (deleted_keys db self) = true.
Proof.
  unfold deleted_keys. split.
  - apply collect_keeps. cbn. rewrite Z.eqb_refl. reflexivity.
  - apply collect_closes. lia.
Qed.

Lemma delete_tables (db : Store) (self : Badge) :
  (forall r, In r (badge_table (delete db self)) <->
             In r (badge_table db)
             /\ key_in (badge_pk r) (deleted_keys db self) = false)
  /\ (forall a, In a (award_table (delete db self)) <->
                In a (award_table db)
                /\ key_in (award_badge a) (deleted_keys db self) = false).
Proof.
  pose proof (deleted_keys_closed db self) as [Hself _].
  unfold delete, Model_delete, delete_award_set.
  cbn [badge_table award_table].
  change (deleted_keys {| badge_table := badge_table db;
                          award_table := _; award_seq := _ |} self)
    with (deleted_keys db self).
  split.
  - intros r. rewrite filter_In, negb_true_iff. tauto.
  - intros a. rewrite !filter_In, !negb_true_iff. split; [tauto|].
    intros [Hin Hout]. repeat split; try assumption.
    apply Z.eqb_neq. intros Heq. rewrite Heq, Hself in Hout. discriminate Hout.
Qed.

Lemma not_awarded_when_gone (db : Store) (self r : Badge) (u : User) :
  key_in (badge_pk r) (deleted_keys db self) = true ->
  is_awarded_to (delete db self) r u = false.
Proof.
  intros Hgone. apply is_awarded_to_empty. unfold Award_objects_filter.
  apply filter_none. intros a Ha.
  apply (proj2 (delete_tables db self)) in Ha. destruct Ha as [_ Hout].
  apply not_true_is_false. intros Hm. apply award_matches_iff in Hm.
  destruct Hm as [Hb _]. rewrite Hb, Hgone in Hout. discriminate Hout.
Qed.

(** [Badge.delete] removes the badge and all its awards, and with it
    every badge that has it as awarding prerequisite, and the awards of
    those: afterwards nobody holds any of them. *)
Theorem delete_cascades (db : Store) (self : Badge) :
  (forall r, In r (badge_table (delete db self)) -> badge_pk r <> badge_pk self)
  /\ (forall a, In a (award_table (delete db self)) ->
                award_badge a <> badge_pk self)
  /\ (forall u, is_awarded_to (delete db self) self u = false)
  /\ (forall r p, In r (badge_table db) ->
        awarding_prerequisite r = Some p -> badge_pk p = badge_pk self ->
        (forall r', In r' (badge_table (delete db self)) ->
                    badge_pk r' <> badge_pk r)
        /\ forall u, is_awarded_to (delete db self) r u = false).
Proof.
  pose proof (deleted_keys_closed db self) as [Hself Hclosed].
  pose proof (delete_tables db self) as [Hbadges Hawards].
  assert (Hgone : forall k, key_in k (deleted_keys db self) = true ->
            (forall r, In r (badge_table (delete db self)) -> badge_pk r <> k)
            /\ (forall a, In a (award_table (delete db self)) -> award_badge a <> k)).
  { intros k Hk. split.
    - intros r Hr Heq. apply Hbadges in Hr. destruct Hr as [_ Hout].
      rewrite Heq, Hk in Hout. discriminate Hout.
    - intros a Ha Heq. apply Hawards in Ha. destruct Ha as [_ Hout].
      rewrite Heq, Hk in Hout. discriminate Hout. }
  split; [apply (Hgone _ Hself)|]. split; [apply (Hgone _ Hself)|].
  split; [intros u; apply not_awarded_when_gone; exact Hself|].
  intros r p Hr Hpre Hp.
  assert (Hdep : key_in (badge_pk r) (deleted_keys db self) = true).
  { apply Hclosed; [exact Hr|]. unfold depends_on. rewrite Hpre, Hp. exact Hself. }
  split; [apply (Hgone _ Hdep)|].
  intros u. apply not_awarded_when_gone. exact Hdep.
Qed.

Lemma delete_cascades_witness :
  (forall r', In r' (badge_table (delete Fixtures.school Fixtures.mentor)) ->
              badge_pk r' <> badge_pk Fixtures.team_player)
  /\ forall u, is_awarded_to (delete Fixtures.school Fixtures.mentor)
                             Fixtures.team_player u = false.
Proof.
  apply (delete_cascades Fixtures.school Fixtures.mentor)
    with (p := Fixtures.mentor).
  - right. right. left. reflexivity.
  - reflexivity.
  - reflexivity.
Defined.

(** [Badge.delete] leaves no foreign key without its row: if every
    award named a stored badge and every awarding prerequisite was
    stored, that is so after the deletion. *)
Theorem delete_keeps_references (db : Store) (self : Badge) :
  references_ok db -> references_ok (delete db self).
Proof.
  intros [Hawards Hprereq].
  pose proof (deleted_keys_closed db self) as [_ Hclosed].
  pose proof (delete_tables db self) as [Hb Ha].
  split.
  - intros a Hin. apply Ha in Hin. destruct Hin as [Hin Hout].
    destruct (Hawards a Hin) as [q [Hq Hk]].
    exists q. split; [|exact Hk]. apply Hb. split; [exact Hq|].
    rewrite Hk. exact Hout.
  - intros r p Hin Hpre. apply Hb in Hin. destruct Hin as [Hin Hout].
    destruct (Hprereq r p Hin Hpre) as [q [Hq Hk]].
    exists q. split; [|exact Hk]. apply Hb. split; [exact Hq|].
    rewrite Hk.
    destruct (key_in (badge_pk p) (deleted_keys db self)) eqn:Hp; [|reflexivity].
    assert (Hdep : depends_on (deleted_keys db self) r = true)
      by (unfold depends_on; rewrite Hpre; exact Hp).
    rewrite (Hclosed r Hin Hdep) in Hout. discriminate Hout.
Qed.

Lemma delete_keeps_references_witness :
  references_ok (delete Fixtures.school Fixtures.mentor).
Proof.
  apply delete_keeps_references. split.
  - intros a [<-|[<-|[]]].
    + exists Fixtures.creator_badge. split; [left|]; reflexivity.
    + exists Fixtures.mentor. split; [right; left|]; reflexivity.
  - intros r p [<-|[<-|[<-|[]]]]; cbn; intros H; try discriminate H.
    injection H as <-.
    exists Fixtures.mentor. split; [right; left|]; reflexivity.
Defined.





(** ** Routing *)

(** The patterns on paths whose routing [re] was asked for. *)
Example routes :
  map resolve
      ["badge/x"; "badge/x/"; "badge/x/edi"; "badge/x/edit"; "badge/x/edit/";
       "badge/x/awards/12"; "badge/x/awards/12/"; "badge/x/awards/";
       "badge//"; "new-badge"; "new-badge/"; "user/bob/"; "badge/x/awards/1a"; ""]
  = [Some (BadgeDetail "x"); Some (BadgeDetail "x"); Some (BadgeEdit "x");
     Some (BadgeEdit "x"); None;
     Some (AwardDetail "x" "12"); Some (AwardDetail "x" "12"); None;
     None; Some BadgeCreate; None; Some (AwardsByUser "bob"); None;
     Some BadgeIndex]
  /\ resolve ("badge/x" ++ newline) = Some (BadgeDetail ("x" ++ newline))
  /\ resolve ("badge/x/" ++ newline) = Some (BadgeDetail "x")
  /\ resolve ("badge/a b/awards/007" ++ newline) = Some (AwardDetail "a b" "007").
Proof. repeat split. Qed.

Lemma string_app_nil_r (s : string) : (s ++ "")%string = s.
Proof. induction s as [|c s IH]; cbn; [reflexivity | rewrite IH; reflexivity]. Qed.

Lemma string_app_assoc (a b c : string) :
  ((a ++ b) ++ c)%string = (a ++ b ++ c)%string.
Proof. induction a as [|x a IH]; cbn; [reflexivity | rewrite IH; reflexivity]. Qed.

Lemma string_app_length (a b : string) :
  String.length (a ++ b) = (String.length a + String.length b)%nat.
Proof. induction a as [|x a IH]; cbn; [reflexivity | rewrite IH; reflexivity]. Qed.

Lemma strip_prefix_some (p s rest : string) :
  strip_prefix p s = Some rest -> s = (p ++ rest)%string.
Proof.
  revert s. induction p as [|a p IH]; intros s; cbn.
  - intros H. injection H as ->. reflexivity.
  - destruct s as [|b s]; [discriminate|].
    destruct (Ascii.eqb a b) eqn:Hab; [|discriminate].
    apply Ascii.eqb_eq in Hab. subst b.
    intros H. rewrite (IH s H). reflexivity.
Qed.

Lemma lit_app {A : Type} (p : string) (k : string -> option A) (s : string) :
  lit p k (p ++ s) = k s.
Proof.
  unfold lit. replace (strip_prefix p (p ++ s)) with (Some s); [reflexivity|].
  induction p as [|a p IH]; cbn; [reflexivity|].
  rewrite Ascii.eqb_refl. exact IH.
Qed.

Lemma eos_leaves {A : Type} (v : A) : leaves_at_most 1 (eos v).
Proof.
  intros r w. unfold eos.
  destruct r as [|c [|c' r]]; cbn [String.length]; try lia.
  cbn. destruct (Ascii.eqb c _); discriminate.
Qed.

Lemma lit_leaves {A : Type} (p : string) (k : string -> option A) (n : nat) :
  leaves_at_most n k -> leaves_at_most (String.length p + n) (lit p k).
Proof.
  intros Hk r v. unfold lit.
  destruct (strip_prefix p r) as [rest|] eqn:Hp; [|discriminate].
  intros H. apply strip_prefix_some in Hp. subst r.
  rewrite string_app_length. specialize (Hk rest v H). lia.
Qed.

Lemma opt_leaves {A : Type} (p : string) (k : string -> option A) (n : nat) :
  leaves_at_most n k -> leaves_at_most (String.length p + n) (opt p k).
Proof.
  intros Hk r v. unfold opt.
  destruct (lit p k r) as [w|] eqn:Hl.
  - intros H. injection H as ->. exact (lit_leaves p k n Hk r v Hl).
  - intros H. specialize (Hk r v H). lia.
Qed.

(** The class takes all of [s] when it cannot go on and the
    continuation accepts what follows. *)
Lemma plus_greedy {A : Type} (cls : ascii -> bool)
    (k : string -> string -> option A) (s : string) :
  forall taken t v,
    s <> "" -> all_chars cls s = true -> stops cls t = true ->
    k (taken ++ s)%string t = Some v ->
    plus cls k taken (s ++ t) = Some v.
Proof.
  unfold all_chars.
  induction s as [|c s IH]; intros taken t v Hne Hall Hstop Hk; [congruence|].
  cbn [list_ascii_of_string forallb] in Hall.
  apply andb_true_iff in Hall. destruct Hall as [Hc Hall].
  cbn [append plus]. rewrite Hc.
  destruct s as [|c' s'].
  - cbn [append].
    replace (plus cls k _ t) with (@None A); [exact Hk|].
    destruct t as [|x t]; [reflexivity|].
    cbn [plus stops] in *. apply negb_true_iff in Hstop. rewrite Hstop. reflexivity.
  - rewrite (IH (taken ++ String c "")%string t v); [reflexivity|discriminate| | |].
    + exact Hall.
    + exact Hstop.
    + rewrite string_app_assoc. exact Hk.
Qed.

(** The class finds no match when the continuation rejects everything
    that ends in [t]. *)
Lemma plus_none {A : Type} (cls : ascii -> bool)
    (k : string -> string -> option A) (t : string) (n : nat) :
  (forall taken, leaves_at_most n (k taken)) ->
  stops cls t = true -> (n < String.length t)%nat ->
  forall s taken, plus cls k taken (s ++ t) = None.
Proof.
  intros Hk Hstop Hlen.
  assert (Hrest : forall taken s, k taken (s ++ t)%string = None).
  { intros taken s. destruct (k taken (s ++ t)%string) as [v|] eqn:H; [|reflexivity].
    apply Hk in H. rewrite string_app_length in H. lia. }
  induction s as [|c s IH]; intros taken.
  - cbn [append]. destruct t as [|x t]; [reflexivity|].
    cbn [plus stops] in *. apply negb_true_iff in Hstop. rewrite Hstop. reflexivity.
  - cbn [append plus]. destruct (cls c); [|reflexivity].
    rewrite IH. apply Hrest.
Qed.

Lemma detail_leaves (taken : string) :
  leaves_at_most 2 (opt "/" (eos (BadgeDetail taken))).
Proof. apply (opt_leaves "/" _ 1), eos_leaves. Qed.

Lemma edit_leaves (taken : string) :
  leaves_at_most 6 (lit "/edi" (opt "t" (eos (BadgeEdit taken)))).
Proof. apply (lit_leaves "/edi" _ 2), (opt_leaves "t" _ 1), eos_leaves. Qed.

(** A badge whose slug is not empty and has no slash in it is routed to
    [BadgeDetail] under [badge/<slug>], with or without a closing slash,
    and in both cases the view is handed that slug. *)
Theorem route_badge_detail (slug : string) :
  slug <> "" -> all_chars not_slash slug = true ->
  resolve ("badge/" ++ slug) = Some (BadgeDetail slug)
  /\ resolve ("badge/" ++ slug ++ "/") = Some (BadgeDetail slug).
Proof.
  intros Hne Hall. unfold resolve, urlpatterns. cbn [resolve_in].
  split.
  - change (eos BadgeIndex ("badge/" ++ slug)) with (@None view).
    rewrite lit_app. rewrite <- (string_app_nil_r slug) at 1.
    rewrite (plus_greedy not_slash _ slug "" "" (BadgeDetail slug));
      try assumption; reflexivity.
  - change (eos BadgeIndex ("badge/" ++ slug ++ "/")) with (@None view).
    rewrite lit_app.
    rewrite (plus_greedy not_slash _ slug "" "/" (BadgeDetail slug));
      try assumption; reflexivity.
Qed.

Lemma route_badge_detail_witness :
  resolve "badge/team-player" = Some (BadgeDetail "team-player")
  /\ resolve "badge/team-player/" = Some (BadgeDetail "team-player").
Proof.
  apply (route_badge_detail "team-player"); [discriminate | reflexivity].
Defined.

(** The pattern of the edit page ends in [edit?]: both
    [badge/<slug>/edit] and [badge/<slug>/edi] are routed to
    [BadgeEdit]. *)
Theorem route_badge_edit (slug : string) :
  slug <> "" -> all_chars not_slash slug = true ->
  resolve ("badge/" ++ slug ++ "/edit") = Some (BadgeEdit slug)
  /\ resolve ("badge/" ++ slug ++ "/edi") = Some (BadgeEdit slug).
Proof.
  intros Hne Hall. unfold resolve, urlpatterns. cbn [resolve_in].
  split.
  - change (eos BadgeIndex ("badge/" ++ slug ++ "/edit")) with (@None view).
    rewrite !lit_app.
    rewrite (plus_none not_slash _ "/edit" 2);
      [| exact detail_leaves | reflexivity | cbn; lia].
    rewrite (plus_greedy not_slash _ slug "" "/edit" (BadgeEdit slug));
      try assumption; reflexivity.
  - change (eos BadgeIndex ("badge/" ++ slug ++ "/edi")) with (@None view).
    rewrite !lit_app.
    rewrite (plus_none not_slash _ "/edi" 2);
      [| exact detail_leaves | reflexivity | cbn; lia].
    rewrite (plus_greedy not_slash _ slug "" "/edi" (BadgeEdit slug));
      try assumption; reflexivity.
Qed.

Lemma route_badge_edit_witness :
  resolve "badge/team-player/edit" = Some (BadgeEdit "team-player")
  /\ resolve "badge/team-player/edi" = Some (BadgeEdit "team-player").
Proof.
  apply (route_badge_edit "team-player"); [discriminate | reflexivity].
Defined.

(** [badge/<slug>/awards/<id>] is routed to [AwardDetail] with that slug
    and that id, for a slug without slash and an id of digits. *)
Theorem route_award_detail (slug id : string) :
  slug <> "" -> all_chars not_slash slug = true ->
  id <> "" -> all_chars is_digit id = true ->
  resolve ("badge/" ++ slug ++ "/awards/" ++ id) = Some (AwardDetail slug id).
Proof.
  intros Hne Hall Hid Hdigits. unfold resolve, urlpatterns. cbn [resolve_in].
  change (eos BadgeIndex ("badge/" ++ slug ++ "/awards/" ++ id)) with (@None view).
  rewrite !lit_app.
  assert (Hlen : (6 < String.length ("/awards/" ++ id))%nat) by (cbn; lia).
  rewrite (plus_none not_slash _ ("/awards/" ++ id) 2);
    [| exact detail_leaves | reflexivity | lia].
  rewrite (plus_none not_slash _ ("/awards/" ++ id) 6);
    [| exact edit_leaves | reflexivity | lia].
  change (lit "new-badge" (eos BadgeCreate) ("badge/" ++ slug ++ "/awards/" ++ id))
    with (@None view).
  change (lit "user/" ?k ("badge/" ++ slug ++ "/awards/" ++ id)) with (@None view).
  rewrite (plus_greedy not_slash _ slug "" ("/awards/" ++ id) (AwardDetail slug id));
    try assumption; try reflexivity.
  rewrite lit_app. rewrite <- (string_app_nil_r id) at 1.
  rewrite (plus_greedy is_digit _ id "" "" (AwardDetail slug id));
    try assumption; reflexivity.
Qed.

Lemma route_award_detail_witness :
  resolve "badge/team-player/awards/12" = Some (AwardDetail "team-player" "12").
Proof.
  apply (route_award_detail "team-player" "12");
    first [discriminate | reflexivity].
Defined.

(** ** Views *)



(** A badge saved without a slug, whose title derives one, can be
    visited: the path [badge/<slug>] is routed to [BadgeDetail], and the
    view renders the badge as it was saved. *)
Theorem saved_badge_is_served (to_ascii : string -> string) (db db' : Store)
    (self : Badge) :
  badge_keys_unique db ->
  slug self = "" -> slugify to_ascii (title self) <> "" ->
  snd (save to_ascii db self) = (Return tt, db') ->
  let b := fst (save to_ascii db self) in
  slug b = slugify to_ascii (title self)
  /\ resolve ("badge/" ++ slug b) = Some (BadgeDetail (slug b))
  /\ BadgeDetail_get db' (slug b) = Ok ("mome_rath/badge_detail.html", b).
Proof.
  intros Hkeys Hempty Hne Hsaved. cbn zeta.
  unfold save in *. cbn [fst snd] in *. rewrite Hempty in *.
  cbn [String.eqb] in *.
  set (b := set_slug self (slugify to_ascii (title self))) in *.
  assert (Hslug : slug b = slugify to_ascii (title self)) by reflexivity.
  split; [exact Hslug|]. split.
  - rewrite Hslug.
    pose proof (tidy_slug_chars _ _ (slugify_tidy to_ascii (title self))) as Hchars.
    unfold resolve, urlpatterns. cbn [resolve_in].
    change (eos BadgeIndex ("badge/" ++ slugify to_ascii (title self)))
      with (@None view).
    rewrite lit_app.
    rewrite <- (string_app_nil_r (slugify to_ascii (title self))) at 1.
    rewrite (plus_greedy not_slash _ (slugify to_ascii (title self)) "" ""
               (BadgeDetail (slugify to_ascii (title self))));
      [reflexivity | exact Hne | | reflexivity | reflexivity].
    unfold all_chars. rewrite forallb_forall in *. intros c Hc.
    specialize (Hchars c Hc). revert Hchars.
    ascii_cases c; vm_compute; intros H; try reflexivity; discriminate H.
  - destruct (Model_save_accepts b db db' Hsaved) as [Hother [Htable _]].
    unfold BadgeDetail_get, Badge_objects_get_slug. rewrite Htable.
    destruct (existsb _ (badge_table db)) eqn:He.
    + rewrite get_after_put; [rewrite He; reflexivity | exact Hkeys |].
      intros r Hr Hkey. apply (Hother r Hr Hkey).
    + rewrite existsb_false in He.
      rewrite filter_app, filter_none.
      * cbn [filter app]. rewrite String.eqb_refl. reflexivity.
      * intros r Hr. apply String.eqb_neq. apply (Hother r Hr (He r Hr)).
Qed.

Lemma saved_badge_is_served_witness :
  resolve "badge/team-player" = Some (BadgeDetail "team-player")
  /\ BadgeDetail_get (snd (snd (save ascii_only Fixtures.school Fixtures.team_player)))
                     "team-player"
     = Ok ("mome_rath/badge_detail.html",
           mkBadge 3 "Team Player" "team-player" (Some Fixtures.mentor)).
Proof.
  apply (saved_badge_is_served ascii_only Fixtures.school
           (snd (snd (save ascii_only Fixtures.school Fixtures.team_player)))
           Fixtures.team_player).
  - unfold badge_keys_unique. cbn. repeat constructor; cbn; intuition discriminate.
  - reflexivity.
  - discriminate.
  - reflexivity.
Defined.
